(** * Speech-to-text component: header parsing, transcription endpoint and
      engine listing

    A shallow embedding of [homeassistant/components/stt/__init__.py]:
    [_metadata_from_header], [SpeechToTextView.post] and
    [websocket_list_engines], with the Python exceptions they raise kept as
    values of an error type. *)

From Stdlib Require Import Ascii NArith.
From stdpp Require Import base option list strings gmap.

Set Default Proof Using "Type".

(** ** Python [str] methods used by the parser

    A [str] is modelled as a [string] whose characters stand for the code
    points below 256. *)

Module str.

(** [str.isspace] on one character: the code points below 256 that Python
    treats as whitespace (TAB..CR, FS..US, SPACE, NEL, NBSP). *)
Definition isspace (c : ascii) : bool :=
  let n := N_of_ascii c in
  ((9 <=? n) && (n <=? 13) || (28 <=? n) && (n <=? 32)
   || (n =? 133) || (n =? 160))%N.

(** [s.lstrip()] *)
Fixpoint lstrip (s : string) : string :=
  match s with
  | EmptyString => EmptyString
  | String c s' => if isspace c then lstrip s' else s
  end.

(** [s.rstrip()] *)
Fixpoint rstrip (s : string) : string :=
  match s with
  | EmptyString => EmptyString
  | String c s' =>
      match rstrip s' with
      | EmptyString => if isspace c then EmptyString else String c EmptyString
      | r => String c r
      end
  end.

(** [s.strip()] *)
Definition strip (s : string) : string := rstrip (lstrip s).

(** [s.split(sep)] for a one-character separator: never the empty list. *)
Fixpoint split (sep : ascii) (s : string) : list string :=
  match s with
  | EmptyString => [EmptyString]
  | String c s' =>
      if Ascii.eqb c sep then EmptyString :: split sep s'
      else match split sep s' with
           | [] => [String c EmptyString]
           | w :: ws => String c w :: ws
           end
  end.

(** [s.partition(sep)] for a one-character separator: the text before the
    first [sep], the separator, the text after it; [(s, "", "")] when [s]
    has no [sep]. *)
Fixpoint partition (sep : ascii) (s : string) : string * string * string :=
  match s with
  | EmptyString => (EmptyString, EmptyString, EmptyString)
  | String c s' =>
      if Ascii.eqb c sep then (EmptyString, String sep EmptyString, s')
      else let '(h, m, t) := partition sep s' in (String c h, m, t)
  end.

(** [sep.join(l)] *)
Fixpoint join (sep : string) (l : list string) : string :=
  match l with
  | [] => EmptyString
  | [w] => w
  | w :: ws => w +:+ sep +:+ join sep ws
  end.

(** ASCII lower-casing, used for the identity of a header name. *)
Definition lower_ascii (c : ascii) : ascii :=
  let n := N_of_ascii c in
  if ((65 <=? n) && (n <=? 90))%N then ascii_of_N (n + 32) else c.

Fixpoint lower (s : string) : string :=
  match s with
  | EmptyString => EmptyString
  | String c s' => String (lower_ascii c) (lower s')
  end.

End str.

(** ** Exceptions and results *)

(** The exception classes the module raises or handles. None is a subclass
    of another one of them. *)
Inductive exn : Type :=
| KeyError (key : string)
| ValueError (msg : string)
| TypeError (msg : string)
| HTTPNotFound
| HTTPBadRequest (text : string)
| HTTPUnsupportedMediaType.

(** The status code aiohttp gives each HTTP exception. *)
Definition status_code (e : exn) : option Z :=
  match e with
  | HTTPNotFound => Some 404%Z
  | HTTPBadRequest _ => Some 400%Z
  | HTTPUnsupportedMediaType => Some 415%Z
  | _ => None
  end.

(** A computation that returns or raises. *)
Inductive res (A : Type) : Type :=
| Return (a : A)
| Raise (e : exn).
Arguments Return {A} a.
Arguments Raise {A} e.

#[global] Instance res_ret : MRet res := @Return.
#[global] Instance res_bind : MBind res := fun A B f m =>
  match m with
  | Return a => f a
  | Raise e => Raise e
  end.

(** [d[key]] on a [dict[str, ...]] *)
Definition dict_getitem {A} (d : gmap string A) (key : string) : res A :=
  match d !! key with
  | Some v => Return v
  | None => Raise (KeyError key)
  end.

(** ** Audio enumerations and [SpeechMetadata] *)

(** The enumerations of [const.py], which is not among the sources, are taken
    as a parameter: five types, each with the reading of a header value as
    one of its members ([None] when the value is no member). *)
Class AudioEnums : Type := {
  AudioFormats : Type;
  AudioCodecs : Type;
  AudioBitRates : Type;
  AudioSampleRates : Type;
  AudioChannels : Type;
  AudioFormats_of : string -> option AudioFormats;
  AudioCodecs_of : string -> option AudioCodecs;
  AudioBitRates_of : string -> option AudioBitRates;
  AudioSampleRates_of : string -> option AudioSampleRates;
  AudioChannels_of : string -> option AudioChannels;
}.

(** Modelled from the spec: [SpeechResultState] of [const.py] is missing
    from the sources; the spec gives the status enum as SUCCESS | ERROR. *)
Inductive SpeechResultState : Type := SUCCESS | ERROR.

Section Stt.

Context {E : AudioEnums}.

(** Modelled from the spec: the [SpeechMetadata] dataclass of [legacy.py]
    is missing from the sources. The spec's data model gives it six fields,
    [language] a string and the other five members of their enums. *)
Record SpeechMetadata : Type := {
  language : string;
  format : AudioFormats;
  codec : AudioCodecs;
  bit_rate : AudioBitRates;
  sample_rate : AudioSampleRates;
  channel : AudioChannels;
}.

(** Modelled from the spec: the error of a [SpeechMetadata] construction
    whose [value] is no member of the enum of [field]. The parser handles
    [TypeError] around the construction, so it is raised as one, with a
    message that names the field and the value. *)
Definition InvalidFieldValue (field value : string) : exn :=
  TypeError ("invalid value '" +:+ value +:+ "' for " +:+ field).

Definition enum_member {A} (field : string) (of_header : string -> option A)
    (value : string) : res A :=
  match of_header value with
  | Some a => Return a
  | None => Raise (InvalidFieldValue field value)
  end.

(** Modelled from the spec: the construction [SpeechMetadata(language=...,
    format=..., ...)] of [legacy.py], missing from the sources. "If a value
    does not belong to its field's enum, fails with
    InvalidFieldValue(field, value)"; the fields are examined in the order
    of their declaration. *)
Definition SpeechMetadata_init
    (language format codec bit_rate sample_rate channel : string)
    : res SpeechMetadata :=
  format ← enum_member "format" AudioFormats_of format;
  codec ← enum_member "codec" AudioCodecs_of codec;
  bit_rate ← enum_member "bit_rate" AudioBitRates_of bit_rate;
  sample_rate ← enum_member "sample_rate" AudioSampleRates_of sample_rate;
  channel ← enum_member "channel" AudioChannels_of channel;
  Return {| language := language; format := format; codec := codec;
            bit_rate := bit_rate; sample_rate := sample_rate;
            channel := channel |}.

(** Modelled from the spec: [SpeechResult] of [legacy.py]. *)
Record SpeechResult : Type := {
  text : string;
  result : SpeechResultState;
}.

(** ** The request and its headers *)

(** The headers of a request: a multi-dict, so an association list in
    arrival order; names are compared by their lower-cased identity.
    [content], the body stream, is a reference to the unread bytes kept in
    the handler's state (see [World]). *)
Record Request : Type := {
  headers : list (string * string);
}.

(** [headers[istr(key)]]: the first value stored under the name. *)
Fixpoint headers_getitem (h : list (string * string)) (key : string)
    : res string :=
  match h with
  | [] => Raise (KeyError key)
  | (k, v) :: h' =>
      if String.eqb (str.lower k) (str.lower key) then Return v
      else headers_getitem h' key
  end.

(** ** [_metadata_from_header] *)

Definition fields : list string :=
  ["language"; "format"; "codec"; "bit_rate"; "sample_rate"; "channel"].

(** The loop [for entry in data] that fills [args]. *)
Fixpoint convert_header_data (data : list string) (args : gmap string string)
    : res (gmap string string) :=
  match data with
  | [] => Return args
  | entry :: data' =>
      let '(key, _, value) := str.partition "=" (str.strip entry) in
      if bool_decide (key ∈ fields)
      then convert_header_data data' (<[key := value]> args)
      else Raise (ValueError ("Invalid field " +:+ key))
  end.

(** The loop [for field in fields] that looks for a missing key. *)
Fixpoint check_fields (fs : list string) (args : gmap string string)
    : res unit :=
  match fs with
  | [] => Return tt
  | field :: fs' =>
      match args !! field with
      | None =>
          Raise (ValueError ("Missing " +:+ field +:+
                             " in X-Speech-Content header"))
      | Some _ => check_fields fs' args
      end
  end.

(** The first [try] block: the entries of the header. *)
Definition header_data (request : Request) : res (list string) :=
  match headers_getitem (headers request) "X-Speech-Content" with
  | Return v => Return (str.split ";" v)
  | Raise (KeyError _) =>
      Raise (ValueError "Missing X-Speech-Content header")
  | Raise e => Raise e
  end.

(** The last [try] block: the construction from [args]. *)
Definition metadata_from_args (args : gmap string string)
    : res SpeechMetadata :=
  match
    language ← dict_getitem args "language";
    format ← dict_getitem args "format";
    codec ← dict_getitem args "codec";
    bit_rate ← dict_getitem args "bit_rate";
    sample_rate ← dict_getitem args "sample_rate";
    channel ← dict_getitem args "channel";
    SpeechMetadata_init language format codec bit_rate sample_rate channel
  with
  | Raise (TypeError err) =>
      Raise (ValueError ("Wrong format of X-Speech-Content: " +:+ err))
  | r => r
  end.

Definition _metadata_from_header (request : Request) : res SpeechMetadata :=
  data ← header_data request;
  (* Convert Header data *)
  args ← convert_header_data data ∅;
  _ ← check_fields fields args;
  metadata_from_args args.

(** ** Providers and the transcription endpoint *)

(** Modelled from the spec: the [Provider] interface of [legacy.py],
    missing from the sources: six capability descriptors, the predicate
    [check_metadata], which sees the metadata only, and
    [async_process_audio_stream], which is handed the body stream and
    returns (or raises) together with the bytes it left unread. *)
Record Provider : Type := {
  supported_languages : list string;
  supported_formats : list AudioFormats;
  supported_codecs : list AudioCodecs;
  supported_bit_rates : list AudioBitRates;
  supported_sample_rates : list AudioSampleRates;
  supported_channels : list AudioChannels;
  check_metadata : SpeechMetadata -> bool;
  async_process_audio_stream :
    SpeechMetadata -> list Byte.byte -> res SpeechResult * list Byte.byte;
}.

(** [d.get(key)] on a [dict[str, Provider]]: the dict is iterated in
    insertion order, so it is an association list; a key is looked up at its
    first entry. *)
Fixpoint providers_get (d : list (string * Provider)) (key : string)
    : option Provider :=
  match d with
  | [] => None
  | (k, p) :: d' => if String.eqb k key then Some p else providers_get d' key
  end.

(** A call of a provider method, as the handler makes it. *)
Inductive Invocation : Type :=
| Called_check_metadata (engine : string) (metadata : SpeechMetadata)
| Called_async_process_audio_stream (engine : string)
    (metadata : SpeechMetadata).

(** What a request handler can change: the unread bytes of the request
    body ([request.content]) and the record of provider calls. *)
Record World : Type := {
  content : list Byte.byte;
  invocations : list Invocation;
}.

(** A handler: a computation on the world that returns or raises. *)
Definition handler (A : Type) : Type := World -> res A * World.

#[local] Instance handler_ret : MRet handler := fun A a w => (Return a, w).
#[local] Instance handler_bind : MBind handler := fun A B f m w =>
  match m w with
  | (Return a, w') => f a w'
  | (Raise e, w') => (Raise e, w')
  end.

Definition raise {A} (e : exn) : handler A := fun w => (Raise e, w).

(** [stt_provider.check_metadata(metadata)] *)
Definition call_check_metadata (engine : string) (p : Provider)
    (metadata : SpeechMetadata) : handler bool :=
  fun w =>
    (Return (check_metadata p metadata),
     {| content := content w;
        invocations :=
          invocations w ++ [Called_check_metadata engine metadata] |}).

(** [await stt_provider.async_process_audio_stream(metadata,
    request.content)] *)
Definition call_async_process_audio_stream (engine : string) (p : Provider)
    (metadata : SpeechMetadata) : handler SpeechResult :=
  fun w =>
    let '(r, unread) := async_process_audio_stream p metadata (content w) in
    (r,
     {| content := unread;
        invocations :=
          invocations w ++
          [Called_async_process_audio_stream engine metadata] |}).

Record SpeechToTextView : Type := {
  providers : list (string * Provider);
}.

(** [self.json(asdict(result))] *)
Inductive Response : Type :=
| json (payload : SpeechResult).

(** [SpeechToTextView.post] *)
Definition post (self : SpeechToTextView) (request : Request)
    (provider : string) : handler Response :=
  match providers_get (providers self) provider with
  | None => raise HTTPNotFound
  | Some stt_provider =>
      (* Get metadata *)
      metadata ← match _metadata_from_header request with
                 | Raise (ValueError err) => raise (HTTPBadRequest err)
                 | Raise e => raise e
                 | Return m => mret m
                 end;
      (* Check format *)
      supported ← call_check_metadata provider stt_provider metadata;
      if negb supported then raise HTTPUnsupportedMediaType
      else
        (* Process audio stream *)
        result ← call_async_process_audio_stream provider stt_provider
                   metadata;
        (* Return result *)
        mret (json result)
  end.

(** ** The engine listing command *)

(** [language_util.matches] of [homeassistant/util/language.py], not among
    the sources, is taken as a parameter together with the truth value
    [bool(...)] of what it returns. *)
Context {MatchResult : Type}.
Variable matches : string -> list string -> MatchResult.
Variable truth : MatchResult -> bool.

(** A message accepted by the command's schema: [type] is the literal
    "stt/engine/list", [language] is an optional [str] (the key is absent
    for [None]), [id] is required of every command. *)
Record Message : Type := {
  msg_id : Z;
  msg_language : option string;
}.

(** [msg["language"]] *)
Definition msg_getitem_language (msg : Message) : res string :=
  match msg_language msg with
  | Some l => Return l
  | None => Raise (KeyError "language")
  end.

Record HomeAssistant : Type := {
  data_DOMAIN : list (string * Provider);   (* hass.data[DOMAIN] *)
}.

(** One entry of the reply's "providers" list. *)
Record EngineEntry : Type := {
  engine_id : string;
  language_supported : bool;
}.

(** [websocket_api.result_message(iden, {"providers": [...]})] *)
Record ResultMessage : Type := {
  iden : Z;
  result_providers : list EngineEntry;
}.

(** A connection, by the messages sent on it so far, oldest first. *)
Definition ActiveConnection : Type := list ResultMessage.

Definition send_message (connection : ActiveConnection) (m : ResultMessage)
    : ActiveConnection :=
  connection ++ [m].

(** [websocket_list_engines]: the connection afterwards, or the exception. *)
Definition websocket_list_engines (hass : HomeAssistant)
    (connection : ActiveConnection) (msg : Message) : res ActiveConnection :=
  let legacy_providers := data_DOMAIN hass in
  language ← msg_getitem_language msg;
  let providers :=
    map (fun '(engine_id, provider) =>
           {| engine_id := engine_id;
              language_supported :=
                truth (matches language (supported_languages provider)) |})
        legacy_providers in
  Return (send_message connection
            {| iden := msg_id msg; result_providers := providers |}).

End Stt.

(** ** The enumerations as the spec lists them *)

(** Modelled from the spec: [const.py] is missing from the sources; this is
    the instance with exactly the legal values the spec's external
    interfaces enumerate (formats wav; codecs pcm; bit rates 8, 16, 24, 32;
    sample rates 8000, 16000, 44100, 48000; channels 1, 2), each read from
    its exact header spelling. The theorems below hold for every instance;
    this one serves the concrete examples. *)
Module Listed.

Inductive Formats : Type := WAV.
Inductive Codecs : Type := PCM.
Inductive BitRates : Type :=
  BITRATE_8 | BITRATE_16 | BITRATE_24 | BITRATE_32.
Inductive SampleRates : Type :=
  SAMPLERATE_8000 | SAMPLERATE_16000 | SAMPLERATE_44100 | SAMPLERATE_48000.
Inductive Channels : Type := CHANNEL_MONO | CHANNEL_STEREO.

Definition Formats_of (v : string) : option Formats :=
  if String.eqb v "wav" then Some WAV else None.

Definition Codecs_of (v : string) : option Codecs :=
  if String.eqb v "pcm" then Some PCM else None.

Definition BitRates_of (v : string) : option BitRates :=
  if String.eqb v "8" then Some BITRATE_8
  else if String.eqb v "16" then Some BITRATE_16
  else if String.eqb v "24" then Some BITRATE_24
  else if String.eqb v "32" then Some BITRATE_32
  else None.

Definition SampleRates_of (v : string) : option SampleRates :=
  if String.eqb v "8000" then Some SAMPLERATE_8000
  else if String.eqb v "16000" then Some SAMPLERATE_16000
  else if String.eqb v "44100" then Some SAMPLERATE_44100
  else if String.eqb v "48000" then Some SAMPLERATE_48000
  else None.

Definition Channels_of (v : string) : option Channels :=
  if String.eqb v "1" then Some CHANNEL_MONO
  else if String.eqb v "2" then Some CHANNEL_STEREO
  else None.

Definition enums : AudioEnums := {|
  AudioFormats := Formats;
  AudioCodecs := Codecs;
  AudioBitRates := BitRates;
  AudioSampleRates := SampleRates;
  AudioChannels := Channels;
  AudioFormats_of := Formats_of;
  AudioCodecs_of := Codecs_of;
  AudioBitRates_of := BitRates_of;
  AudioSampleRates_of := SampleRates_of;
  AudioChannels_of := Channels_of;
|}.

(** A request whose only header is [X-Speech-Content: value]. *)
Definition request_with (value : string) : Request :=
  {| headers := [("X-Speech-Content", value)] |}.

(** The header of the docstring of [_metadata_from_header]. *)
Definition docstring_header : string :=
  "format=wav; codec=pcm; sample_rate=16000; bit_rate=16; channel=1; language=de_de".

Definition docstring_metadata : SpeechMetadata (E := enums) :=
  @Build_SpeechMetadata enums "de_de" WAV PCM BITRATE_16 SAMPLERATE_16000
    CHANNEL_MONO.

#[global] Instance Formats_eq_dec : EqDecision Formats.
Proof. solve_decision. Defined.
#[global] Instance Codecs_eq_dec : EqDecision Codecs.
Proof. solve_decision. Defined.
#[global] Instance BitRates_eq_dec : EqDecision BitRates.
Proof. solve_decision. Defined.
#[global] Instance SampleRates_eq_dec : EqDecision SampleRates.
Proof. solve_decision. Defined.
#[global] Instance Channels_eq_dec : EqDecision Channels.
Proof. solve_decision. Defined.

(** Modelled from the spec: a provider that supports exactly wav, pcm,
    16 bit, 16000 Hz, mono, as the one of the spec's end-to-end property.
    Its [check_metadata] is the membership test of the spec's capability
    negotiator (the language is not part of it); its stream method reads the
    whole body. *)
Definition mock_provider : Provider (E := enums) :=
  {| supported_languages := ["en_us"];
     supported_formats := [WAV] : list (AudioFormats (AudioEnums := enums));
     supported_codecs := [PCM] : list (AudioCodecs (AudioEnums := enums));
     supported_bit_rates :=
       [BITRATE_16] : list (AudioBitRates (AudioEnums := enums));
     supported_sample_rates :=
       [SAMPLERATE_16000] : list (AudioSampleRates (AudioEnums := enums));
     supported_channels :=
       [CHANNEL_MONO] : list (AudioChannels (AudioEnums := enums));
     check_metadata := fun metadata : SpeechMetadata (E := enums) =>
       bool_decide (format metadata ∈ [WAV])
       && bool_decide (codec metadata ∈ [PCM])
       && bool_decide (bit_rate metadata ∈ [BITRATE_16])
       && bool_decide (sample_rate metadata ∈ [SAMPLERATE_16000])
       && bool_decide (channel metadata ∈ [CHANNEL_MONO]);
     async_process_audio_stream := fun _ _ =>
       (Return {| text := "test"; result := SUCCESS |}, []) |}.

Definition mock_view : SpeechToTextView (E := enums) :=
  {| providers := [("mock", mock_provider)] |}.

(** The docstring's header with two channels instead of one. *)
Definition stereo_header : string :=
  "format=wav; codec=pcm; sample_rate=16000; bit_rate=16; channel=2; language=de_de".

Definition stereo_metadata : SpeechMetadata (E := enums) :=
  @Build_SpeechMetadata enums "de_de" WAV PCM BITRATE_16 SAMPLERATE_16000
    CHANNEL_STEREO.

(** A world with three unread body bytes and no provider call yet. *)
Definition fresh_world : World (E := enums) :=
  {| content := [Byte.x52; Byte.x49; Byte.x46]; invocations := [] |}.

End Listed.

(** ** Vocabulary of the statements *)

(** The parse failures, by the message the parser raises them with. *)
Definition MissingHeader : exn :=
  ValueError "Missing X-Speech-Content header".

Definition UnknownField (key : string) : exn :=
  ValueError ("Invalid field " +:+ key).

Definition MissingField (field : string) : exn :=
  ValueError ("Missing " +:+ field +:+ " in X-Speech-Content header").

(** [InvalidFieldValue field value] as the parser passes it on. *)
Definition InvalidField (field value : string) : exn :=
  ValueError ("Wrong format of X-Speech-Content: " +:+
              "invalid value '" +:+ value +:+ "' for " +:+ field).

(** The key and the value the loop of the parser reads from one entry. *)
Definition entry_key (entry : string) : string :=
  (str.partition "=" (str.strip entry)).1.1.

Definition entry_value (entry : string) : string :=
  (str.partition "=" (str.strip entry)).2.

(** The value of the last entry of [data] whose key is [key]. *)
Fixpoint last_value (key : string) (data : list string) : option string :=
  match data with
  | [] => None
  | entry :: data' =>
      match last_value key data' with
      | Some v => Some v
      | None =>
          if String.eqb (entry_key entry) key then Some (entry_value entry)
          else None
      end
  end.

(** The header has no [X-Speech-Content] entry, under any capitalisation. *)
Definition header_absent (request : Request) : Prop :=
  Forall (fun kv => str.lower kv.1 <> "x-speech-content") (headers request).

(** [value] is a member of the enum of [field]; every string is a legal
    [language]. *)
Definition legal_value {E : AudioEnums} (field value : string) : bool :=
  if String.eqb field "language" then true
  else if String.eqb field "format" then bool_decide (is_Some (AudioFormats_of value))
  else if String.eqb field "codec" then bool_decide (is_Some (AudioCodecs_of value))
  else if String.eqb field "bit_rate" then bool_decide (is_Some (AudioBitRates_of value))
  else if String.eqb field "sample_rate" then bool_decide (is_Some (AudioSampleRates_of value))
  else if String.eqb field "channel" then bool_decide (is_Some (AudioChannels_of value))
  else false.

(** The field [field] of [m] is the header value [value]: the string itself
    for [language], its member of the enum for the other five. *)
Definition field_is {E : AudioEnums} (m : SpeechMetadata) (field value : string)
    : Prop :=
  if String.eqb field "language" then language m = value
  else if String.eqb field "format" then AudioFormats_of value = Some (format m)
  else if String.eqb field "codec" then AudioCodecs_of value = Some (codec m)
  else if String.eqb field "bit_rate" then AudioBitRates_of value = Some (bit_rate m)
  else if String.eqb field "sample_rate" then AudioSampleRates_of value = Some (sample_rate m)
  else if String.eqb field "channel" then AudioChannels_of value = Some (channel m)
  else False.

(** The calls of the stream-processing method among [l]. *)
Definition is_stream_call {E : AudioEnums} (i : Invocation) : bool :=
  match i with
  | Called_async_process_audio_stream _ _ => true
  | Called_check_metadata _ _ => false
  end.

Definition stream_calls {E : AudioEnums} (l : list Invocation)
    : list Invocation :=
  List.filter is_stream_call l.

(** [c] occurs in [s]. *)
Fixpoint occurs (c : ascii) (s : string) : bool :=
  match s with
  | EmptyString => false
  | String c' s' => Ascii.eqb c' c || occurs c s'
  end.

(** A value that survives the tokenisation unchanged: no semicolon in it and
    no whitespace at its end. *)
Definition tidy_value (v : string) : Prop :=
  occurs ";" v = false /\ str.rstrip v = v.

(** The header [key1=value1; key2=value2; ...] of a list of entries. *)
Definition render_entry (kv : string * string) : string :=
  kv.1 +:+ "=" +:+ kv.2.

Definition render (entries : list (string * string)) : string :=
  str.join "; " (map render_entry entries).

(** The value of the last pair of [entries] under [key]. *)
Fixpoint last_pair (key : string) (entries : list (string * string))
    : option string :=
  match entries with
  | [] => None
  | (k, v) :: entries' =>
      match last_pair key entries' with
      | Some v' => Some v'
      | None => if String.eqb k key then Some v else None
      end
  end.

(** ** The capability query and the registered view *)

Section Capabilities.

Context {E : AudioEnums}.

(** The payload of [SpeechToTextView.get]: the provider's six descriptors
    under the keys "languages", "formats", "codecs", "sample_rates",
    "bit_rates" and "channels". *)
Record Capabilities : Type := {
  languages : list string;
  formats : list AudioFormats;
  codecs : list AudioCodecs;
  sample_rates : list AudioSampleRates;
  bit_rates : list AudioBitRates;
  channels : list AudioChannels;
}.

(** [SpeechToTextView.get] *)
Definition get (self : SpeechToTextView) (request : Request)
    (provider : string) : handler Capabilities :=
  match providers_get (providers self) provider with
  | None => raise HTTPNotFound
  | Some stt_provider =>
      fun w =>
        (Return {| languages := supported_languages stt_provider;
                   formats := supported_formats stt_provider;
                   codecs := supported_codecs stt_provider;
                   sample_rates := supported_sample_rates stt_provider;
                   bit_rates := supported_bit_rates stt_provider;
                   channels := supported_channels stt_provider |}, w)
  end.

(** [SpeechToTextView(hass.data[DOMAIN])], the view that [async_setup]
    registers. *)
Definition async_setup_view (hass : HomeAssistant) : SpeechToTextView :=
  {| providers := data_DOMAIN hass |}.

End Capabilities.

(** [s] consists of whitespace only. *)
Fixpoint all_space (s : string) : bool :=
  match s with
  | EmptyString => true
  | String c s' => str.isspace c && all_space s'
  end.

(** [s] has a whitespace character. *)
Fixpoint has_space (s : string) : bool :=
  match s with
  | EmptyString => false
  | String c s' => str.isspace c || has_space s'
  end.

(** [padded] is [entry] with whitespace added before and after it. *)
Definition padding_of (entry padded : string) : Prop :=
  exists w1 w2,
    all_space w1 = true /\ all_space w2 = true /\
    padded = w1 +:+ entry +:+ w2.

(** ** Examples *)

Example split_docstring :
  str.split ";" "format=wav; codec=pcm" = ["format=wav"; " codec=pcm"].
Proof. reflexivity. Qed.

Example split_empty : str.split ";" "" = [""].
Proof. reflexivity. Qed.

Example strip_entry : str.strip "  codec=pcm " = "codec=pcm".
Proof. reflexivity. Qed.

Example partition_entry : str.partition "=" "a=b=c" = ("a", "=", "b=c").
Proof. reflexivity. Qed.

Example partition_none : str.partition "=" "abc" = ("abc", "", "").
Proof. reflexivity. Qed.

Example parse_docstring_header :
  _metadata_from_header (E := Listed.enums)
    (Listed.request_with Listed.docstring_header)
  = Return Listed.docstring_metadata.
Proof. vm_compute. reflexivity. Qed.

Example parse_foo :
  _metadata_from_header (E := Listed.enums) (Listed.request_with "foo=bar")
  = Raise (ValueError "Invalid field foo").
Proof. vm_compute. reflexivity. Qed.

Example parse_ogg :
  _metadata_from_header (E := Listed.enums) (Listed.request_with "format=ogg")
  = Raise (ValueError "Missing language in X-Speech-Content header").
Proof. vm_compute. reflexivity. Qed.

(** ** Facts about the [str] methods *)

Lemma split_nonempty sep s : str.split sep s <> [].
Proof.
  destruct s as [|c s]; simpl; [done|].
  destruct (Ascii.eqb c sep); [done|].
  by destruct (str.split sep s).
Qed.

(** Splitting at a separator splits the list of pieces. *)
Lemma split_app_sep sep a b :
  str.split sep (a +:+ String sep b) = str.split sep a ++ str.split sep b.
Proof.
  induction a as [|c a IH]; simpl.
  - by rewrite Ascii.eqb_refl.
  - destruct (Ascii.eqb c sep); [by rewrite IH|].
    rewrite IH. destruct (str.split sep a) eqn:Ha; [|done].
    by apply split_nonempty in Ha.
Qed.

Lemma split_no_sep sep s : occurs sep s = false -> str.split sep s = [s].
Proof.
  induction s as [|c s IH]; simpl; [done|].
  intros [Hc Hs]%orb_false_elim. rewrite Hc, IH; done.
Qed.

Lemma occurs_app c a b : occurs c (a +:+ b) = occurs c a || occurs c b.
Proof.
  induction a as [|c' a IH]; simpl; [done|]. by rewrite IH, Bool.orb_assoc.
Qed.

Lemma append_nil (b : string) : "" +:+ b = b.
Proof. reflexivity. Qed.

Lemma append_cons c (a b : string) : String c a +:+ b = String c (a +:+ b).
Proof. reflexivity. Qed.

Lemma string_app_assoc (a b c : string) : (a +:+ b) +:+ c = a +:+ (b +:+ c).
Proof.
  induction a as [|x a IH]; [done|]. by rewrite !append_cons, IH.
Qed.

Lemma partition_app_sep sep k v :
  occurs sep k = false ->
  str.partition sep (k +:+ String sep v) = (k, String sep EmptyString, v).
Proof.
  induction k as [|c k IH]; simpl.
  - by rewrite Ascii.eqb_refl.
  - intros [Hc Hk]%orb_false_elim. by rewrite Hc, IH.
Qed.

Lemma rstrip_cons c s :
  s <> EmptyString -> str.rstrip s = s -> str.rstrip (String c s) = String c s.
Proof.
  intros Hs Hr. simpl. rewrite Hr. by destruct s.
Qed.

Lemma rstrip_app a b :
  b <> EmptyString -> str.rstrip b = b -> str.rstrip (a +:+ b) = a +:+ b.
Proof.
  intros Hb Hr. induction a as [|c a IH]; [done|].
  rewrite append_cons. apply rstrip_cons; [|done].
  destruct a; [done | by rewrite append_cons].
Qed.

Lemma rstrip_eq_value v :
  str.rstrip v = v -> str.rstrip (String "=" v) = String "=" v.
Proof.
  intros Hr. simpl. rewrite Hr. by destruct v.
Qed.

(** ** The two loops of the parser *)

Lemma convert_header_data_cons entry data args :
  convert_header_data (entry :: data) args =
  if bool_decide (entry_key entry ∈ fields)
  then convert_header_data data (<[entry_key entry := entry_value entry]> args)
  else Raise (UnknownField (entry_key entry)).
Proof.
  unfold entry_key, entry_value, UnknownField. simpl.
  by destruct (str.partition "=" (str.strip entry)) as [[k m] v].
Qed.

(** The loop stops at the first entry whose key is not recognised. *)
Lemma convert_header_data_unknown pre entry post args :
  Forall (fun e => entry_key e ∈ fields) pre ->
  entry_key entry ∉ fields ->
  convert_header_data (pre ++ entry :: post) args
  = Raise (UnknownField (entry_key entry)).
Proof.
  intros Hpre Hk. revert args.
  induction Hpre as [|e pre He _ IH]; intros args.
  - rewrite app_nil_l, convert_header_data_cons. by rewrite bool_decide_false.
  - rewrite <- app_comm_cons, convert_header_data_cons.
    rewrite bool_decide_true by done. apply IH.
Qed.

(** With recognised keys only, the loop ends with the last value of each. *)
Lemma convert_header_data_ok data args :
  Forall (fun e => entry_key e ∈ fields) data ->
  exists args',
    convert_header_data data args = Return args' /\
    forall k, args' !! k = match last_value k data with
                           | Some v => Some v
                           | None => args !! k
                           end.
Proof.
  intros Hdata. revert args.
  induction Hdata as [|e data He _ IH]; intros args.
  - by exists args.
  - rewrite convert_header_data_cons, bool_decide_true by done.
    destruct (IH (<[entry_key e := entry_value e]> args)) as (args' & Hc & Hl).
    exists args'. split; [done|]. intros k. rewrite Hl. simpl.
    destruct (last_value k data); [done|].
    destruct (String.eqb_spec (entry_key e) k) as [->|Hne].
    + by rewrite lookup_insert_eq.
    + by rewrite lookup_insert_ne.
Qed.

(** The first entry with an unrecognised key, when there is one. *)
Lemma first_unknown data :
  Exists (fun e => entry_key e ∉ fields) data ->
  exists pre entry post,
    data = pre ++ entry :: post /\
    Forall (fun e => entry_key e ∈ fields) pre /\
    entry_key entry ∉ fields.
Proof.
  induction data as [|e data IH]; intros Hex; [by apply Exists_nil in Hex|].
  destruct (decide (entry_key e ∈ fields)) as [Hin|Hout].
  - apply Exists_cons in Hex as [?|Hex]; [done|].
    destruct (IH Hex) as (pre & entry & post & -> & Hpre & Hk).
    exists (e :: pre), entry, post.
    split; [done|]. split; [by constructor | done].
  - exists [], e, data. split; [done|]. split; [by constructor | done].
Qed.

(** The loop either returns or raises the unknown-field error. *)
Lemma convert_header_data_cases data args :
  (exists args', convert_header_data data args = Return args') \/
  (exists entry, (entry ∈ data) /\ (entry_key entry ∉ fields) /\
     convert_header_data data args = Raise (UnknownField (entry_key entry))).
Proof.
  destruct (decide (Exists (fun e => entry_key e ∉ fields) data)) as [Hex|Hall].
  - right. destruct (first_unknown _ Hex) as (pre & entry & post & -> & Hpre & Hk).
    exists entry. split; [|split; [done|]].
    { apply elem_of_app. right. apply list_elem_of_here. }
    by apply convert_header_data_unknown.
  - left. apply not_Exists_Forall in Hall; [|intros x; apply _].
    destruct (convert_header_data_ok data args) as (args' & Hc & _); [|by eauto].
    eapply Forall_impl; [exact Hall|]. intros x Hx. simpl in Hx.
    by destruct (decide (entry_key x ∈ fields)).
Qed.

Lemma check_fields_ok fs (args : gmap string string) :
  Forall (fun f => is_Some (args !! f)) fs -> check_fields fs args = Return tt.
Proof.
  induction 1 as [|f fs [v Hv] _ IH]; simpl; [done|]. by rewrite Hv.
Qed.

Lemma check_fields_cases fs (args : gmap string string) :
  check_fields fs args = Return tt \/
  exists f, (f ∈ fs) /\ check_fields fs args = Raise (MissingField f).
Proof.
  induction fs as [|f fs IH]; simpl; [by left|].
  destruct (args !! f) eqn:Hf.
  - destruct IH as [IH|(g & Hg & IH)]; [by left|].
    right. exists g. split; [by apply list_elem_of_further | done].
  - right. exists f. split; [apply list_elem_of_here | done].
Qed.

(** ** The parser as a whole *)

Section Parser.

Context {E : AudioEnums}.

Lemma headers_getitem_absent h :
  Forall (fun kv : string * string => str.lower kv.1 <> "x-speech-content") h ->
  headers_getitem h "X-Speech-Content" = Raise (KeyError "X-Speech-Content").
Proof.
  induction 1 as [|[k v] h Hk _ IH]; [done|].
  cbn [headers_getitem]. simpl in Hk.
  change (str.lower "X-Speech-Content") with "x-speech-content".
  destruct (String.eqb_spec (str.lower k) "x-speech-content"); [done|].
  exact IH.
Qed.

Lemma headers_getitem_cases h key :
  (exists v, headers_getitem h key = Return v) \/
  headers_getitem h key = Raise (KeyError key).
Proof.
  induction h as [|[k v] h IH]; simpl; [by right|].
  destruct (String.eqb _ _); [left; by eexists | done].
Qed.

Lemma header_data_present request h :
  headers_getitem (headers request) "X-Speech-Content" = Return h ->
  header_data request = Return (str.split ";" h).
Proof. unfold header_data. by intros ->. Qed.

Lemma header_data_absent request :
  header_absent request -> header_data request = Raise MissingHeader.
Proof.
  intros Habs. unfold header_data.
  by rewrite (headers_getitem_absent _ Habs).
Qed.

(** The construction returns, or fails on a key or on a field's value. *)
Lemma metadata_from_args_cases args :
  (exists m, metadata_from_args args = Return m) \/
  (exists k, metadata_from_args args = Raise (KeyError k)) \/
  (exists field value,
      metadata_from_args args = Raise (InvalidField field value)).
Proof.
  unfold metadata_from_args, dict_getitem, SpeechMetadata_init, enum_member.
  repeat (match goal with
          | |- context [ ?m !! ?k ] => destruct (m !! k); simpl
          | |- context [ match ?f ?v with _ => _ end ] =>
              lazymatch f with
              | AudioFormats_of => destruct (f v)
              | AudioCodecs_of => destruct (f v)
              | AudioBitRates_of => destruct (f v)
              | AudioSampleRates_of => destruct (f v)
              | AudioChannels_of => destruct (f v)
              end; simpl
          end);
  first [ left; by eexists
        | right; left; by eexists
        | right; right; by do 2 eexists ].
Qed.

(** The parse of a present header, loop by loop. *)
Lemma parse_present request h :
  headers_getitem (headers request) "X-Speech-Content" = Return h ->
  _metadata_from_header request =
  (args ← convert_header_data (str.split ";" h) ∅;
   _ ← check_fields fields args;
   metadata_from_args args).
Proof.
  intros Hh. unfold _metadata_from_header.
  by rewrite (header_data_present _ _ Hh).
Qed.

Lemma parse_unknown request h pre entry post :
  headers_getitem (headers request) "X-Speech-Content" = Return h ->
  str.split ";" h = pre ++ entry :: post ->
  Forall (fun e => entry_key e ∈ fields) pre ->
  entry_key entry ∉ fields ->
  _metadata_from_header request = Raise (UnknownField (entry_key entry)).
Proof.
  intros Hh Hs Hpre Hk. rewrite (parse_present _ _ Hh), Hs.
  by rewrite convert_header_data_unknown.
Qed.

Lemma UnknownField_not_MissingHeader key : UnknownField key <> MissingHeader.
Proof. intros [=]. Qed.

Lemma UnknownField_not_MissingField key field :
  UnknownField key <> MissingField field.
Proof. intros [=]. Qed.

Lemma MissingField_not_MissingHeader field :
  field ∈ fields -> MissingField field <> MissingHeader.
Proof.
  unfold fields. rewrite !elem_of_cons, elem_of_nil.
  intros [->|[->|[->|[->|[->|[->|[]]]]]]]; intros [=].
Qed.

Lemma InvalidField_not_MissingHeader field value :
  InvalidField field value <> MissingHeader.
Proof. intros [=]. Qed.

(** A present header never gives the missing-header error. *)
Lemma parse_present_not_MissingHeader request h :
  headers_getitem (headers request) "X-Speech-Content" = Return h ->
  _metadata_from_header request <> Raise MissingHeader.
Proof.
  intros Hh. rewrite (parse_present _ _ Hh).
  destruct (convert_header_data_cases (str.split ";" h) ∅)
    as [[args ->]|(entry & _ & _ & ->)]; cbn [mbind res_bind].
  2: { intros H. apply (UnknownField_not_MissingHeader (entry_key entry)).
       congruence. }
  destruct (check_fields_cases fields args) as [->|(f & Hf & ->)];
    cbn [mbind res_bind].
  2: { intros H. apply (MissingField_not_MissingHeader f Hf). congruence. }
  destruct (metadata_from_args_cases args)
    as [[m ->]|[[k ->]|(f & v & ->)]]; [done|done|].
  intros H. apply (InvalidField_not_MissingHeader f v). congruence.
Qed.

End Parser.

(** ** Failures of the parser *)

Section ParseFailures.

Context {E : AudioEnums}.

(** An empty entry has the empty key, which is not recognised. *)
Lemma empty_entry_unknown : entry_key "" ∉ fields.
Proof. by apply (bool_decide_unpack _). Qed.

(** C6: when the X-Speech-Content header is absent, parsing fails with the
    missing-header error; a request that has the header, whatever its
    value, never gives that error, so the two results differ; and the
    present-but-empty header fails too, with the unknown-field error for
    the empty key. Neither case returns a metadata record. *)
Theorem C6_missing_header_distinct request request' h :
  header_absent request ->
  headers_getitem (headers request') "X-Speech-Content" = Return h ->
  _metadata_from_header request = Raise MissingHeader /\
  _metadata_from_header request' <> _metadata_from_header request /\
  (h = "" -> _metadata_from_header request' = Raise (UnknownField "")).
Proof.
  intros Habs Hh.
  assert (_metadata_from_header request = Raise MissingHeader) as Hm.
  { unfold _metadata_from_header. by rewrite header_data_absent. }
  split; [done|]. split.
  - rewrite Hm. by eapply parse_present_not_MissingHeader.
  - intros ->.
    apply (parse_unknown request' "" [] "" []); [done|done|done|].
    apply empty_entry_unknown.
Qed.

(** C7: when some entry of the header has a key outside the six recognised
    ones, parsing fails with the unknown-field error that names such a key:
    the key of the first entry that has one. *)
Theorem C7_unknown_field request h :
  headers_getitem (headers request) "X-Speech-Content" = Return h ->
  Exists (fun e => entry_key e ∉ fields) (str.split ";" h) ->
  exists pre entry post,
    str.split ";" h = pre ++ entry :: post /\
    Forall (fun e => entry_key e ∈ fields) pre /\
    (entry_key entry ∉ fields) /\
    _metadata_from_header request = Raise (UnknownField (entry_key entry)).
Proof.
  intros Hh Hex.
  destruct (first_unknown _ Hex) as (pre & entry & post & Hs & Hpre & Hk).
  exists pre, entry, post. repeat split; try done.
  by eapply parse_unknown.
Qed.

(** C9: a header that ends with a semicolon, or has two adjacent
    semicolons, has an empty entry, and parsing fails with the
    unknown-field error for a key that is not recognised; when every
    non-empty entry has a recognised key, that key is the empty string. No
    such header parses, whatever its other entries supply. *)
Theorem C9_empty_entry_fails request h :
  headers_getitem (headers request) "X-Speech-Content" = Return h ->
  (exists a, h = a +:+ ";") \/ (exists a b, h = a +:+ ";;" +:+ b) ->
  "" ∈ str.split ";" h /\
  exists key,
    (key ∉ fields) /\
    _metadata_from_header request = Raise (UnknownField key) /\
    (Forall (fun e => e <> "" -> entry_key e ∈ fields) (str.split ";" h) ->
     key = "").
Proof.
  intros Hh Hform.
  assert ("" ∈ str.split ";" h) as Hin.
  { destruct Hform as [[a ->]|(a & b & ->)].
    - rewrite (split_app_sep ";" a ""). apply elem_of_app. right.
      apply list_elem_of_here.
    - change (a +:+ ";;" +:+ b) with (a +:+ String ";" ("" +:+ String ";" b)).
      rewrite !split_app_sep. apply elem_of_app. right.
      apply list_elem_of_here. }
  split; [done|].
  assert (Exists (fun e => entry_key e ∉ fields) (str.split ";" h)) as Hex.
  { apply Exists_exists. exists "". split; [done|]. apply empty_entry_unknown. }
  destruct (first_unknown _ Hex) as (pre & entry & post & Hs & Hpre & Hk).
  exists (entry_key entry). split; [done|]. split; [by eapply parse_unknown|].
  intros Hall. rewrite Forall_forall in Hall.
  destruct (decide (entry = "")) as [->|Hne]; [done|].
  destruct Hk. apply Hall; [|done]. rewrite Hs.
  apply elem_of_app. right. apply list_elem_of_here.
Qed.

(** C10: the unknown-key error takes precedence over the missing-key
    error: the entries are scanned in order and parsing fails at the first
    entry whose key is not recognised, with the unknown-field error naming
    it, whichever recognised keys are missing; the result is never a
    missing-field error. *)
Theorem C10_unknown_before_missing request h pre entry post :
  headers_getitem (headers request) "X-Speech-Content" = Return h ->
  str.split ";" h = pre ++ entry :: post ->
  Forall (fun e => entry_key e ∈ fields) pre ->
  entry_key entry ∉ fields ->
  _metadata_from_header request = Raise (UnknownField (entry_key entry)) /\
  forall field, _metadata_from_header request <> Raise (MissingField field).
Proof.
  intros Hh Hs Hpre Hk.
  rewrite (parse_unknown _ _ _ _ _ Hh Hs Hpre Hk). split; [done|].
  intros field H. apply (UnknownField_not_MissingField (entry_key entry) field).
  congruence.
Qed.

End ParseFailures.

(** ** Headers with recognised keys only *)

Section Recognised.

Context {E : AudioEnums}.

(** With recognised keys only and each of the six present, the parse is the
    construction from the last value of each key. *)
Lemma parse_recognised request h vl vf vc vb vs vch :
  headers_getitem (headers request) "X-Speech-Content" = Return h ->
  Forall (fun e => entry_key e ∈ fields) (str.split ";" h) ->
  last_value "language" (str.split ";" h) = Some vl ->
  last_value "format" (str.split ";" h) = Some vf ->
  last_value "codec" (str.split ";" h) = Some vc ->
  last_value "bit_rate" (str.split ";" h) = Some vb ->
  last_value "sample_rate" (str.split ";" h) = Some vs ->
  last_value "channel" (str.split ";" h) = Some vch ->
  _metadata_from_header request =
  match SpeechMetadata_init vl vf vc vb vs vch with
  | Raise (TypeError err) =>
      Raise (ValueError ("Wrong format of X-Speech-Content: " +:+ err))
  | r => r
  end.
Proof.
  intros Hh Hall Hl Hf Hc Hb Hs Hch. rewrite (parse_present _ _ Hh).
  destruct (convert_header_data_ok _ ∅ Hall) as (args & -> & Hargs).
  cbn [mbind res_bind].
  assert (args !! "language" = Some vl) as Al by (by rewrite Hargs, Hl).
  assert (args !! "format" = Some vf) as Af by (by rewrite Hargs, Hf).
  assert (args !! "codec" = Some vc) as Ac by (by rewrite Hargs, Hc).
  assert (args !! "bit_rate" = Some vb) as Ab by (by rewrite Hargs, Hb).
  assert (args !! "sample_rate" = Some vs) as As by (by rewrite Hargs, Hs).
  assert (args !! "channel" = Some vch) as Ach by (by rewrite Hargs, Hch).
  rewrite check_fields_ok.
  2: { unfold fields. by repeat (constructor; [by eexists|]). }
  cbn [mbind res_bind]. unfold metadata_from_args, dict_getitem.
  by rewrite Al, Af, Ac, Ab, As, Ach.
Qed.

(** The six last values, when each key is present. *)
Lemma six_last_values data :
  (forall f, f ∈ fields -> is_Some (last_value f data)) ->
  exists vl vf vc vb vs vch,
    last_value "language" data = Some vl /\
    last_value "format" data = Some vf /\
    last_value "codec" data = Some vc /\
    last_value "bit_rate" data = Some vb /\
    last_value "sample_rate" data = Some vs /\
    last_value "channel" data = Some vch.
Proof.
  intros Hall.
  destruct (Hall "language") as [vl Hl]; [by apply (bool_decide_unpack _)|].
  destruct (Hall "format") as [vf Hf]; [by apply (bool_decide_unpack _)|].
  destruct (Hall "codec") as [vc Hc]; [by apply (bool_decide_unpack _)|].
  destruct (Hall "bit_rate") as [vb Hb]; [by apply (bool_decide_unpack _)|].
  destruct (Hall "sample_rate") as [vs Hs]; [by apply (bool_decide_unpack _)|].
  destruct (Hall "channel") as [vch Hch]; [by apply (bool_decide_unpack _)|].
  by exists vl, vf, vc, vb, vs, vch.
Qed.

Lemma fields_cases (P : string -> Prop) :
  P "language" -> P "format" -> P "codec" -> P "bit_rate" ->
  P "sample_rate" -> P "channel" ->
  forall f, f ∈ fields -> P f.
Proof.
  intros ? ? ? ? ? ? f. unfold fields. rewrite !elem_of_cons, elem_of_nil.
  intros [->|[->|[->|[->|[->|[->|[]]]]]]]; done.
Qed.

(** The parse succeeds when the last value of each key is legal, and the
    record holds these values. *)
Lemma parse_last_values request h :
  headers_getitem (headers request) "X-Speech-Content" = Return h ->
  Forall (fun e => entry_key e ∈ fields) (str.split ";" h) ->
  (forall f, f ∈ fields ->
     exists v, last_value f (str.split ";" h) = Some v /\
               legal_value f v = true) ->
  exists m,
    _metadata_from_header request = Return m /\
    forall f v, f ∈ fields ->
      last_value f (str.split ";" h) = Some v -> field_is m f v.
Proof.
  intros Hh Hkeys Hall.
  destruct (six_last_values (str.split ";" h))
    as (vl & vf & vc & vb & vs & vch & Hl & Hf & Hc & Hb & Hs & Hch).
  { intros f Hf. destruct (Hall f Hf) as (v & -> & _). by eexists. }
  rewrite (parse_recognised _ _ _ _ _ _ _ _ Hh Hkeys Hl Hf Hc Hb Hs Hch).
  destruct (Hall "format") as (? & Hf' & Lf); [by apply (bool_decide_unpack _)|].
  destruct (Hall "codec") as (? & Hc' & Lc); [by apply (bool_decide_unpack _)|].
  destruct (Hall "bit_rate") as (? & Hb' & Lb); [by apply (bool_decide_unpack _)|].
  destruct (Hall "sample_rate") as (? & Hs' & Ls); [by apply (bool_decide_unpack _)|].
  destruct (Hall "channel") as (? & Hch' & Lch); [by apply (bool_decide_unpack _)|].
  simplify_eq.
  unfold legal_value in Lf, Lc, Lb, Ls, Lch. simpl in Lf, Lc, Lb, Ls, Lch.
  apply bool_decide_eq_true in Lf as [af Ef].
  apply bool_decide_eq_true in Lc as [ac Ec].
  apply bool_decide_eq_true in Lb as [ab Eb].
  apply bool_decide_eq_true in Ls as [asr Es].
  apply bool_decide_eq_true in Lch as [ach Ech].
  unfold SpeechMetadata_init, enum_member. rewrite Ef, Ec, Eb, Es, Ech.
  cbn [mbind res_bind].
  exists (Build_SpeechMetadata vl af ac ab asr ach). split; [done|].
  intros f v Hfin. revert v. pattern f. revert f Hfin.
  apply fields_cases; intros v Hv; unfold field_is; simpl; congruence.
Qed.

End Recognised.

(** ** Last occurrences and rendered headers *)

Lemma last_value_app_last key pre entry post :
  entry_key entry = key ->
  Forall (fun e => entry_key e <> key) post ->
  last_value key (pre ++ entry :: post) = Some (entry_value entry).
Proof.
  intros Hk Hpost.
  assert (last_value key post = None) as Hnone.
  { induction Hpost as [|e post He _ IH]; simpl; [done|]. rewrite IH.
    by destruct (String.eqb_spec (entry_key e) key). }
  induction pre as [|e pre IH]; simpl.
  - rewrite Hnone, Hk. by rewrite String.eqb_refl.
  - by rewrite IH.
Qed.

Lemma last_value_pairs key data :
  last_value key data =
  last_pair key (map (fun e => (entry_key e, entry_value e)) data).
Proof.
  induction data as [|e data IH]; simpl; [done|]. by rewrite IH.
Qed.

Lemma last_pair_is_Some key (entries : list (string * string)) :
  key ∈ entries.*1 -> is_Some (last_pair key entries).
Proof.
  induction entries as [|[k v] entries IH]; simpl.
  - by intros ?%elem_of_nil.
  - intros [->|Hin]%elem_of_cons.
    + destruct (last_pair k entries); [by eexists|].
      rewrite String.eqb_refl. by eexists.
    + destruct (IH Hin) as [v' ->]. by eexists.
Qed.

Lemma last_pair_elem key v (entries : list (string * string)) :
  last_pair key entries = Some v -> (key, v) ∈ entries.
Proof.
  induction entries as [|[k v'] entries IH]; simpl; [done|].
  destruct (last_pair key entries) as [v''|].
  - intros [= ->]. apply list_elem_of_further. by apply IH.
  - destruct (String.eqb_spec k key) as [->|]; [|done].
    intros [= ->]. apply list_elem_of_here.
Qed.

(** Without duplicate keys, every pair is the last of its key. *)
Lemma last_pair_NoDup key v (entries : list (string * string)) :
  NoDup entries.*1 -> (key, v) ∈ entries -> last_pair key entries = Some v.
Proof.
  induction entries as [|[k v'] entries IH]; simpl.
  - by intros _ ?%elem_of_nil.
  - intros [Hk Hnd]%NoDup_cons [[= -> ->]|Hin]%elem_of_cons.
    + destruct (last_pair k entries) as [v''|] eqn:Hl.
      * destruct Hk. apply list_elem_of_fmap. exists (k, v'').
        split; [done|]. by apply last_pair_elem.
      * by rewrite String.eqb_refl.
    + by rewrite (IH Hnd Hin).
Qed.

(** What a recognised key looks like to the tokeniser. *)
Lemma recognised_key_shape k :
  k ∈ fields ->
  occurs ";" k = false /\ occurs "=" k = false /\
  exists c k', k = String c k' /\ str.isspace c = false.
Proof.
  unfold fields. rewrite !elem_of_cons, elem_of_nil.
  intros [->|[->|[->|[->|[->|[->|[]]]]]]];
    (split; [done|split; [done|by do 2 eexists]]).
Qed.

Lemma strip_rendered pad k v :
  pad = "" \/ pad = " " ->
  k ∈ fields -> str.rstrip v = v ->
  str.strip (pad +:+ render_entry (k, v)) = k +:+ String "=" v.
Proof.
  intros Hpad Hk Hv.
  destruct (recognised_key_shape k Hk) as (_ & _ & c & k' & -> & Hc).
  unfold str.strip, render_entry. simpl fst. simpl snd.
  assert (str.lstrip (pad +:+ String c k' +:+ "=" +:+ v)
          = String c k' +:+ String "=" v) as ->.
  { destruct Hpad as [->| ->].
    - rewrite append_nil, append_cons. simpl. by rewrite Hc.
    - change (" " +:+ String c k' +:+ "=" +:+ v)
        with (String " " (String c (k' +:+ String "=" v))).
      simpl. by rewrite Hc. }
  apply rstrip_app; [done|]. by apply rstrip_eq_value.
Qed.

Lemma entry_rendered pad k v :
  pad = "" \/ pad = " " ->
  k ∈ fields -> str.rstrip v = v ->
  entry_key (pad +:+ render_entry (k, v)) = k /\
  entry_value (pad +:+ render_entry (k, v)) = v.
Proof.
  intros Hpad Hk Hv. unfold entry_key, entry_value.
  rewrite (strip_rendered pad k v Hpad Hk Hv).
  destruct (recognised_key_shape k Hk) as (_ & Heq & _).
  by rewrite (partition_app_sep "=" k v Heq).
Qed.

Lemma occurs_render_entry k v :
  k ∈ fields -> occurs ";" v = false -> occurs ";" (render_entry (k, v)) = false.
Proof.
  intros Hk Hv. destruct (recognised_key_shape k Hk) as (Hs & _ & _).
  unfold render_entry. simpl fst. simpl snd.
  by rewrite !occurs_app, Hs, Hv.
Qed.

(** The tokeniser gives back the entries of a rendered header, each but the
    first behind one space. *)
Lemma split_render pad e (entries : list (string * string)) :
  occurs ";" pad = false ->
  Forall (fun kv => occurs ";" (render_entry kv) = false) (e :: entries) ->
  str.split ";" (pad +:+ render (e :: entries))
  = (pad +:+ render_entry e)
    :: map (fun kv => " " +:+ render_entry kv) entries.
Proof.
  revert pad e. induction entries as [|e' entries IH]; intros pad e Hpad Hall.
  - apply Forall_cons in Hall as [He _]. unfold render. simpl.
    apply split_no_sep. by rewrite occurs_app, Hpad, He.
  - apply Forall_cons in Hall as [He Hall].
    change (render (e :: e' :: entries))
      with (render_entry e +:+ String ";" (" " +:+ render (e' :: entries))).
    rewrite <- string_app_assoc, split_app_sep.
    rewrite split_no_sep by (by rewrite occurs_app, Hpad, He).
    by rewrite (IH " " e').
Qed.

(** The pairs the parser reads from a rendered header are its entries. *)
Lemma pairs_of_render (entries : list (string * string)) :
  entries <> [] ->
  Forall (fun kv => kv.1 ∈ fields /\ tidy_value kv.2) entries ->
  map (fun e => (entry_key e, entry_value e)) (str.split ";" (render entries))
  = entries.
Proof.
  intros Hne Hall. destruct entries as [|[k v] entries]; [done|].
  assert (Forall (fun kv => occurs ";" (render_entry kv) = false)
            ((k, v) :: entries)) as Hocc.
  { eapply Forall_impl; [exact Hall|]. intros [k' v'] (Hk' & Hv' & _).
    by apply occurs_render_entry. }
  change (render ((k, v) :: entries)) with ("" +:+ render ((k, v) :: entries)).
  rewrite (split_render "" (k, v) entries eq_refl Hocc).
  apply Forall_cons in Hall as [(Hk & _ & Hv) Hall]. simpl in Hk, Hv.
  simpl. destruct (entry_rendered "" k v) as [-> ->]; [by left|done|done|].
  f_equal. clear Hocc. induction Hall as [|[k' v'] entries (Hk' & _ & Hv') _ IH];
    simpl; [done|].
  simpl in Hk', Hv'.
  destruct (entry_rendered " " k' v') as [-> ->]; [by right|done|done|].
  by rewrite IH.
Qed.

(** ** Successful parses *)

Section ParseSuccess.

Context {E : AudioEnums}.

(** C4: a header [key1=value1; key2=value2; ...] whose keys are the
    recognised ones, each of the six among them, and whose values are legal
    (and free of semicolons and of trailing whitespace) parses, and each
    field of the record is the value the header gives it: the value of the
    last pair of its key, so of its one pair when no key is repeated. *)
Theorem C4_well_formed_header_parses request (entries : list (string * string)) :
  headers_getitem (headers request) "X-Speech-Content"
    = Return (render entries) ->
  Forall (fun kv => kv.1 ∈ fields /\ tidy_value kv.2 /\
                    legal_value kv.1 kv.2 = true) entries ->
  (forall f, f ∈ fields -> f ∈ entries.*1) ->
  exists m,
    _metadata_from_header request = Return m /\
    (forall f v, last_pair f entries = Some v -> field_is m f v) /\
    (NoDup entries.*1 -> Forall (fun kv => field_is m kv.1 kv.2) entries).
Proof.
  intros Hh Hall Hsix.
  assert (entries <> []) as Hne.
  { intros ->. specialize (Hsix "language"). simpl in Hsix.
    apply (elem_of_nil "language"), Hsix. by apply (bool_decide_unpack _). }
  assert (map (fun e => (entry_key e, entry_value e))
            (str.split ";" (render entries)) = entries) as Hpairs.
  { apply pairs_of_render; [done|].
    eapply Forall_impl; [exact Hall|]. by intros kv (? & ? & _). }
  assert (forall f, last_value f (str.split ";" (render entries))
                    = last_pair f entries) as Hlast.
  { intros f. by rewrite last_value_pairs, Hpairs. }
  assert (forall f v, (f, v) ∈ entries ->
            f ∈ fields /\ legal_value f v = true) as Hlegal.
  { intros f v Hin. rewrite Forall_forall in Hall.
    destruct (Hall _ Hin) as (? & _ & ?). done. }
  destruct (parse_last_values request (render entries) Hh) as (m & Hm & Hfields).
  - rewrite <- Hpairs in Hall. rewrite Forall_fmap in Hall.
    eapply Forall_impl; [exact Hall|]. by intros e (? & _).
  - intros f Hf. destruct (last_pair_is_Some f entries (Hsix f Hf)) as [v Hv].
    exists v. rewrite Hlast. split; [done|].
    by apply Hlegal, last_pair_elem.
  - exists m. split; [done|]. split.
    + intros f v Hv. apply Hfields; [|by rewrite Hlast].
      by apply (Hlegal f v), last_pair_elem.
    + intros Hnd. apply Forall_forall. intros [k v] Hin. simpl.
      apply Hfields; [by apply (Hlegal k v)|].
      rewrite Hlast. by apply last_pair_NoDup.
Qed.

(** C8: when a recognised key is repeated (entries [e1] and later [e2],
    with no entry of that key after [e2]), only recognised keys are used
    and the last value of each of the six is legal, parsing succeeds and
    the field of the repeated key is the value of [e2], as every field is
    the last value of its key. *)
Theorem C8_last_occurrence_wins request h pre e1 mid e2 post :
  headers_getitem (headers request) "X-Speech-Content" = Return h ->
  str.split ";" h = pre ++ e1 :: mid ++ e2 :: post ->
  entry_key e1 = entry_key e2 ->
  Forall (fun e => entry_key e <> entry_key e2) post ->
  Forall (fun e => entry_key e ∈ fields) (str.split ";" h) ->
  (forall f, f ∈ fields ->
     exists v, last_value f (str.split ";" h) = Some v /\
               legal_value f v = true) ->
  exists m,
    _metadata_from_header request = Return m /\
    field_is m (entry_key e2) (entry_value e2) /\
    forall f v, f ∈ fields ->
      last_value f (str.split ";" h) = Some v -> field_is m f v.
Proof.
  intros Hh Hs Hrep Hpost Hkeys Hall.
  destruct (parse_last_values request h Hh Hkeys Hall) as (m & Hm & Hfields).
  exists m. split; [done|]. split; [|done].
  apply Hfields.
  - rewrite Forall_forall in Hkeys. apply Hkeys. rewrite Hs.
    apply elem_of_app. right. apply list_elem_of_further.
    apply elem_of_app. right. apply list_elem_of_here.
  - rewrite Hs.
    change (pre ++ e1 :: mid ++ e2 :: post)
      with (pre ++ (e1 :: mid) ++ e2 :: post).
    rewrite app_assoc. by apply last_value_app_last.
Qed.

End ParseSuccess.

(** ** The transcription endpoint *)

Section Endpoint.

Context {E : AudioEnums}.

Lemma post_bad_request self request provider stt_provider text w :
  providers_get (providers self) provider = Some stt_provider ->
  _metadata_from_header request = Raise (ValueError text) ->
  post self request provider w = (Raise (HTTPBadRequest text), w).
Proof. intros Hp Hm. unfold post. by rewrite Hp, Hm. Qed.

Lemma last_value_key f v data :
  last_value f data = Some v -> exists e, (e ∈ data) /\ entry_key e = f.
Proof.
  revert v. induction data as [|e data IH]; intros v; simpl; [done|].
  destruct (last_value f data) as [v'|].
  - intros _. destruct (IH v' eq_refl) as (e' & He' & Hk).
    exists e'. split; [by apply list_elem_of_further | done].
  - destruct (String.eqb_spec (entry_key e) f) as [Hk|]; [|done].
    intros _. exists e. split; [apply list_elem_of_here | done].
Qed.


(** C2: for a known provider and a header that parses, when the provider's
    [check_metadata] is false the handler raises HTTPUnsupportedMediaType
    (status 415); the only provider call it has made is [check_metadata]:
    the stream method has not been called and the body is as unread as
    before. *)
Theorem C2_unsupported_metadata_rejected self request provider stt_provider
    metadata w :
  providers_get (providers self) provider = Some stt_provider ->
  _metadata_from_header request = Return metadata ->
  check_metadata stt_provider metadata = false ->
  exists w',
    post self request provider w = (Raise HTTPUnsupportedMediaType, w') /\
    status_code HTTPUnsupportedMediaType = Some 415%Z /\
    content w' = content w /\
    invocations w' =
      invocations w ++ [Called_check_metadata provider metadata] /\
    stream_calls (invocations w') = stream_calls (invocations w).
Proof.
  intros Hp Hm Hc. eexists. split.
  - unfold post. rewrite Hp, Hm.
    cbv [mbind handler_bind mret handler_ret call_check_metadata raise].
    rewrite Hc. reflexivity.
  - cbn. repeat split. unfold stream_calls.
    rewrite List.filter_app. cbn. by rewrite app_nil_r.
Qed.

(** Closes the case of [C3_invalid_value_rejected] in which the construction
    stops at the field whose reading [Henum] is [None]. *)
Ltac invalid_here Henum :=
  match goal with
  | Hparse : _metadata_from_header _ = _ |- _ =>
      cbn [mbind res_bind] in Hparse;
      eexists; split; [done|]; split;
      [ unfold legal_value; simpl; by rewrite Henum
      | split; [reflexivity|]; split; [exact Hparse|];
        split; [by eapply post_bad_request | done] ]
  end.

(** C3, as the code has it: when the header uses recognised keys only, each
    of the six is present, and the last value of some key is no member of the
    enum of its field, parsing fails at the construction with the
    invalid-value error naming such a field and its value; the handler turns
    it into HTTPBadRequest (status 400) with that message, and no provider
    method is called. *)
Theorem C3_invalid_value_rejected self request provider stt_provider w h
    field value :
  providers_get (providers self) provider = Some stt_provider ->
  headers_getitem (headers request) "X-Speech-Content" = Return h ->
  Forall (fun e => entry_key e ∈ fields) (str.split ";" h) ->
  (forall f, f ∈ fields -> is_Some (last_value f (str.split ";" h))) ->
  last_value field (str.split ";" h) = Some value ->
  legal_value field value = false ->
  exists field' value' text,
    last_value field' (str.split ";" h) = Some value' /\
    legal_value field' value' = false /\
    ValueError text = InvalidField field' value' /\
    _metadata_from_header request = Raise (ValueError text) /\
    post self request provider w = (Raise (HTTPBadRequest text), w) /\
    status_code (HTTPBadRequest text) = Some 400%Z.
Proof.
  intros Hp Hh Hkeys Hsix Hfield Hillegal.
  destruct (six_last_values _ Hsix)
    as (vl & vf & vc & vb & vs & vch & Hl & Hf & Hc & Hb & Hs & Hch).
  pose proof (parse_recognised _ _ _ _ _ _ _ _ Hh Hkeys Hl Hf Hc Hb Hs Hch)
    as Hparse.
  assert (field ∈ fields) as Hin.
  { destruct (last_value_key _ _ _ Hfield) as (e & He & <-).
    rewrite Forall_forall in Hkeys. by apply Hkeys. }
  unfold SpeechMetadata_init, enum_member in Hparse.
  destruct (AudioFormats_of vf) as [af|] eqn:Ef;
    [|exists "format", vf; invalid_here Ef].
  destruct (AudioCodecs_of vc) as [ac|] eqn:Ec;
    [|exists "codec", vc; invalid_here Ec].
  destruct (AudioBitRates_of vb) as [ab|] eqn:Eb;
    [|exists "bit_rate", vb; invalid_here Eb].
  destruct (AudioSampleRates_of vs) as [asr|] eqn:Es;
    [|exists "sample_rate", vs; invalid_here Es].
  destruct (AudioChannels_of vch) as [ach|] eqn:Ech;
    [|exists "channel", vch; invalid_here Ech].
  exfalso. revert Hfield Hillegal. pattern field. revert field Hin.
  apply fields_cases; intros Hv; unfold legal_value; simpl;
    try done; simplify_eq; intros Hd; apply bool_decide_eq_false in Hd;
    apply Hd; by eexists.
Qed.

End Endpoint.

(** ** The engine listing command *)

Section Listing.

Context {E : AudioEnums} {MatchResult : Type}.
Variable matches : string -> list string -> MatchResult.
Variable truth : MatchResult -> bool.

(** C1, on the code: a message without the "language" key makes the command
    raise KeyError at [msg["language"]]; nothing is sent, whatever the
    registry holds. *)
Theorem C1_no_language_raises hass connection id :
  websocket_list_engines matches truth hass connection
    {| msg_id := id; msg_language := None |}
  = Raise (KeyError "language").
Proof. reflexivity. Qed.

(** C5: for every registry and every supplied language the command sends one
    reply, correlated to the message by its id, whose list has one entry per
    registered provider in the registry's iteration order: the entry at each
    position has the engine id registered there, and its [language_supported]
    is the truth value of the language matcher applied to the requested
    language and that provider's [supported_languages]. *)
Theorem C5_one_entry_per_provider hass connection id language :
  exists reply,
    websocket_list_engines matches truth hass connection
      {| msg_id := id; msg_language := Some language |}
    = Return (connection ++ [reply]) /\
    iden reply = id /\
    length (result_providers reply) = length (data_DOMAIN hass) /\
    map engine_id (result_providers reply) = (data_DOMAIN hass).*1 /\
    forall i engine provider,
      data_DOMAIN hass !! i = Some (engine, provider) ->
      result_providers reply !! i =
      Some {| engine_id := engine;
              language_supported :=
                truth (matches language (supported_languages provider)) |}.
Proof.
  eexists. split; [reflexivity|]. cbn [iden result_providers].
  split; [done|]. split; [by rewrite length_map|]. split.
  - induction (data_DOMAIN hass) as [|[engine provider] l IH]; [done|].
    cbn. by rewrite IH.
  - intros i engine provider Hi.
    change (map ?f ?l) with (f <$> l). by rewrite list_lookup_fmap, Hi.
Qed.

End Listing.

(** ** The claims at concrete inputs *)

(** Decides a closed decidable proposition by evaluation. *)
Ltac by_evaluation := apply (bool_decide_unpack _); vm_compute; exact I.

(** The end-to-end property of the spec, on the mock provider: the docstring's
    header is served, the stream method is called and reads the body. *)
Example post_docstring_header :
  post Listed.mock_view (Listed.request_with Listed.docstring_header) "mock"
    Listed.fresh_world
  = (Return (json {| text := "test"; result := SUCCESS |}),
     {| content := [];
        invocations :=
          [Called_check_metadata "mock" Listed.docstring_metadata;
           Called_async_process_audio_stream "mock" Listed.docstring_metadata]
     |}).
Proof. vm_compute. reflexivity. Qed.

Example post_unknown_provider :
  post Listed.mock_view (Listed.request_with Listed.docstring_header) "other"
    Listed.fresh_world
  = (Raise HTTPNotFound, Listed.fresh_world).
Proof. vm_compute. reflexivity. Qed.

Lemma C2_witness :
  exists w',
    post Listed.mock_view (Listed.request_with Listed.stereo_header) "mock"
      Listed.fresh_world
    = (Raise HTTPUnsupportedMediaType, w') /\
    status_code HTTPUnsupportedMediaType = Some 415%Z /\
    content w' = content Listed.fresh_world /\
    invocations w' =
      invocations Listed.fresh_world
      ++ [Called_check_metadata "mock" Listed.stereo_metadata] /\
    stream_calls (invocations w') = stream_calls (invocations Listed.fresh_world).
Proof.
  apply (C2_unsupported_metadata_rejected (E := Listed.enums) Listed.mock_view
           (Listed.request_with Listed.stereo_header) "mock"
           Listed.mock_provider Listed.stereo_metadata Listed.fresh_world).
  - reflexivity.
  - vm_compute. reflexivity.
  - vm_compute. reflexivity.
Defined.

(** C3 as stated fails in two ways. The header [format=ogg] uses recognised
    keys only and its value is no member of the format enum, yet the failure
    is the missing-field error for [language], not an invalid-value error.
    And a header whose illegal [format=ogg] is followed by [format=wav]
    parses. *)
Lemma C3_counterexample :
  (Forall (fun e => entry_key e ∈ fields) (str.split ";" "format=ogg") /\
   legal_value (E := Listed.enums) "format" (entry_value "format=ogg") = false /\
   _metadata_from_header (E := Listed.enums) (Listed.request_with "format=ogg")
   = Raise (MissingField "language") /\
   forall field value,
     _metadata_from_header (E := Listed.enums) (Listed.request_with "format=ogg")
     <> Raise (InvalidField field value)) /\
  (let h := "language=de_de; format=ogg; format=wav; codec=pcm; sample_rate=16000; bit_rate=16; channel=1" in
   Forall (fun e => entry_key e ∈ fields) (str.split ";" h) /\
   " format=ogg" ∈ str.split ";" h /\
   legal_value (E := Listed.enums) (entry_key " format=ogg")
     (entry_value " format=ogg") = false /\
   _metadata_from_header (E := Listed.enums) (Listed.request_with h)
   = Return Listed.docstring_metadata).
Proof.
  split.
  - split; [by_evaluation|]. split; [vm_compute; reflexivity|].
    split; [vm_compute; reflexivity|].
    intros field value. vm_compute. intros [=].
  - cbv zeta. split; [by_evaluation|]. split; [by_evaluation|].
    split; vm_compute; reflexivity.
Qed.

Lemma C3_witness :
  let h := "format=ogg; codec=pcm; sample_rate=16000; bit_rate=16; channel=1; language=de_de" in
  exists field' value' text,
    last_value field' (str.split ";" h) = Some value' /\
    legal_value (E := Listed.enums) field' value' = false /\
    ValueError text = InvalidField field' value' /\
    _metadata_from_header (E := Listed.enums) (Listed.request_with h)
    = Raise (ValueError text) /\
    post Listed.mock_view (Listed.request_with h) "mock" Listed.fresh_world
    = (Raise (HTTPBadRequest text), Listed.fresh_world) /\
    status_code (HTTPBadRequest text) = Some 400%Z.
Proof.
  intros h.
  apply (C3_invalid_value_rejected (E := Listed.enums) Listed.mock_view
           (Listed.request_with h) "mock" Listed.mock_provider
           Listed.fresh_world h "format" "ogg").
  - reflexivity.
  - reflexivity.
  - by_evaluation.
  - intros f Hf. pattern f. revert f Hf.
    apply fields_cases; eexists; vm_compute; reflexivity.
  - vm_compute. reflexivity.
  - vm_compute. reflexivity.
Defined.

Lemma C4_witness :
  let entries :=
    [("format", "wav"); ("codec", "pcm"); ("sample_rate", "16000");
     ("bit_rate", "16"); ("channel", "1"); ("language", "de_de")] in
  exists m,
    _metadata_from_header (E := Listed.enums)
      (Listed.request_with (render entries)) = Return m /\
    (forall f v, last_pair f entries = Some v -> field_is m f v) /\
    (NoDup entries.*1 -> Forall (fun kv => field_is m kv.1 kv.2) entries).
Proof.
  intros entries.
  apply (C4_well_formed_header_parses (E := Listed.enums)
           (Listed.request_with (render entries)) entries).
  - reflexivity.
  - repeat (constructor;
            [split; [by_evaluation | split; [split|]; vm_compute; reflexivity]|]).
    constructor.
  - intros f Hf. pattern f. revert f Hf. apply fields_cases; by_evaluation.
Defined.

Lemma C6_witness :
  _metadata_from_header (E := Listed.enums) {| headers := [("Host", "ha")] |}
  = Raise MissingHeader /\
  _metadata_from_header (E := Listed.enums) (Listed.request_with "")
  <> _metadata_from_header (E := Listed.enums) {| headers := [("Host", "ha")] |} /\
  ("" = "" ->
   _metadata_from_header (E := Listed.enums) (Listed.request_with "")
   = Raise (UnknownField "")).
Proof.
  apply (C6_missing_header_distinct (E := Listed.enums)
           {| headers := [("Host", "ha")] |} (Listed.request_with "") "").
  - constructor; [vm_compute; by intros [=] | constructor].
  - reflexivity.
Defined.

Lemma C7_witness :
  let h := "language=de_de; foo=bar; baz=1" in
  exists pre entry post,
    str.split ";" h = pre ++ entry :: post /\
    Forall (fun e => entry_key e ∈ fields) pre /\
    (entry_key entry ∉ fields) /\
    _metadata_from_header (E := Listed.enums) (Listed.request_with h)
    = Raise (UnknownField (entry_key entry)).
Proof.
  intros h.
  apply (C7_unknown_field (E := Listed.enums) (Listed.request_with h) h).
  - reflexivity.
  - by_evaluation.
Defined.

Lemma C8_witness :
  let h := "language=de_de; format=wav; channel=2; codec=pcm; sample_rate=16000; bit_rate=16; channel=1" in
  exists m,
    _metadata_from_header (E := Listed.enums) (Listed.request_with h)
    = Return m /\
    field_is m (entry_key " channel=1") (entry_value " channel=1") /\
    forall f v, f ∈ fields ->
      last_value f (str.split ";" h) = Some v -> field_is m f v.
Proof.
  intros h.
  apply (C8_last_occurrence_wins (E := Listed.enums) (Listed.request_with h) h
           ["language=de_de"; " format=wav"] " channel=2"
           [" codec=pcm"; " sample_rate=16000"; " bit_rate=16"] " channel=1" []).
  - reflexivity.
  - reflexivity.
  - reflexivity.
  - constructor.
  - by_evaluation.
  - intros f Hf. pattern f. revert f Hf.
    apply fields_cases; eexists; vm_compute; by split.
Defined.

Lemma C9_witness :
  let h := "format=wav;" in
  "" ∈ str.split ";" h /\
  exists key,
    (key ∉ fields) /\
    _metadata_from_header (E := Listed.enums) (Listed.request_with h)
    = Raise (UnknownField key) /\
    (Forall (fun e => e <> "" -> entry_key e ∈ fields) (str.split ";" h) ->
     key = "").
Proof.
  intros h.
  apply (C9_empty_entry_fails (E := Listed.enums) (Listed.request_with h) h).
  - reflexivity.
  - left. by exists "format=wav".
Defined.

Lemma C10_witness :
  _metadata_from_header (E := Listed.enums) (Listed.request_with "foo=bar")
  = Raise (UnknownField "foo") /\
  forall field,
    _metadata_from_header (E := Listed.enums) (Listed.request_with "foo=bar")
    <> Raise (MissingField field).
Proof.
  apply (C10_unknown_before_missing (E := Listed.enums)
           (Listed.request_with "foo=bar") "foo=bar" [] "foo=bar" []).
  - reflexivity.
  - reflexivity.
  - constructor.
  - by_evaluation.
Defined.

(** ** Further properties of the parser *)

Section ParserProperties.

Context {E : AudioEnums}.

Lemma convert_header_data_Return data args args' :
  convert_header_data data args = Return args' ->
  Forall (fun e => entry_key e ∈ fields) data.
Proof.
  revert args. induction data as [|e data IH]; intros args; [by constructor|].
  rewrite convert_header_data_cons.
  destruct (decide (entry_key e ∈ fields)) as [Hin|Hout].
  - rewrite bool_decide_true by done. intros H. constructor; [done|].
    by eapply IH.
  - by rewrite bool_decide_false.
Qed.

(** From the empty dict, the loop ends with exactly the last values. *)
Lemma convert_header_data_lookup data args' :
  convert_header_data data ∅ = Return args' ->
  forall k, args' !! k = last_value k data.
Proof.
  intros Hc k.
  destruct (convert_header_data_ok data ∅) as (args'' & Hc' & Hl).
  { by eapply convert_header_data_Return. }
  rewrite Hc in Hc'. injection Hc' as <-. rewrite Hl, lookup_empty.
  by destruct (last_value k data).
Qed.

Lemma check_fields_Return fs (args : gmap string string) :
  check_fields fs args = Return tt -> Forall (fun f => is_Some (args !! f)) fs.
Proof.
  induction fs as [|f fs IH]; simpl; [by constructor|].
  destruct (args !! f) eqn:Hf; [|done]. intros H.
  constructor; [by eexists | by apply IH].
Qed.

(** The missing-key loop stops at the first field that [args] lacks. *)
Lemma check_fields_missing pre f post (args : gmap string string) :
  Forall (fun g => is_Some (args !! g)) pre ->
  args !! f = None ->
  check_fields (pre ++ f :: post) args = Raise (MissingField f).
Proof.
  intros Hpre Hf. induction Hpre as [|g pre [v Hg] _ IH]; simpl.
  - by rewrite Hf.
  - by rewrite Hg.
Qed.

(** The missing-key loop returns, or stops at the first missing field. *)
Lemma check_fields_outcome fs (args : gmap string string) :
  check_fields fs args = Return tt \/
  exists pre f post,
    fs = pre ++ f :: post /\
    Forall (fun g => is_Some (args !! g)) pre /\
    args !! f = None /\
    check_fields fs args = Raise (MissingField f).
Proof.
  induction fs as [|g fs IH]; simpl; [by left|].
  destruct (args !! g) eqn:Hg.
  - destruct IH as [IH|(pre & f & post & -> & Hpre & Hf & IH)]; [by left|].
    right. exists (g :: pre), f, post. split; [done|].
    split; [constructor; [by eexists | done]|]. done.
  - right. exists [], g, fs. split; [done|]. split; [by constructor | done].
Qed.

(** With each of the six keys in [args] the construction cannot fail on a
    key: it returns the record of the members read from the six values, or
    fails on a value that is no member. *)
Lemma metadata_from_args_complete (args : gmap string string) :
  Forall (fun f => is_Some (args !! f)) fields ->
  (exists m,
      metadata_from_args args = Return m /\
      forall f, f ∈ fields ->
        exists v, args !! f = Some v /\ legal_value f v = true /\
                  field_is m f v) \/
  (exists f v,
      args !! f = Some v /\ legal_value f v = false /\
      metadata_from_args args = Raise (InvalidField f v)).
Proof.
  intros Hall. rewrite Forall_forall in Hall.
  destruct (Hall "language") as [vl Hl]; [by apply (bool_decide_unpack _)|].
  destruct (Hall "format") as [vf Hf]; [by apply (bool_decide_unpack _)|].
  destruct (Hall "codec") as [vc Hc]; [by apply (bool_decide_unpack _)|].
  destruct (Hall "bit_rate") as [vb Hb]; [by apply (bool_decide_unpack _)|].
  destruct (Hall "sample_rate") as [vs Hs]; [by apply (bool_decide_unpack _)|].
  destruct (Hall "channel") as [vch Hch]; [by apply (bool_decide_unpack _)|].
  unfold metadata_from_args, dict_getitem.
  rewrite Hl, Hf, Hc, Hb, Hs, Hch. cbn [mbind res_bind].
  unfold SpeechMetadata_init, enum_member.
  destruct (AudioFormats_of vf) as [af|] eqn:Ef; cbn [mbind res_bind].
  2: { right. exists "format", vf. split; [done|]. split; [|done].
       unfold legal_value. simpl. by rewrite Ef. }
  destruct (AudioCodecs_of vc) as [ac|] eqn:Ec; cbn [mbind res_bind].
  2: { right. exists "codec", vc. split; [done|]. split; [|done].
       unfold legal_value. simpl. by rewrite Ec. }
  destruct (AudioBitRates_of vb) as [ab|] eqn:Eb; cbn [mbind res_bind].
  2: { right. exists "bit_rate", vb. split; [done|]. split; [|done].
       unfold legal_value. simpl. by rewrite Eb. }
  destruct (AudioSampleRates_of vs) as [asr|] eqn:Es; cbn [mbind res_bind].
  2: { right. exists "sample_rate", vs. split; [done|]. split; [|done].
       unfold legal_value. simpl. by rewrite Es. }
  destruct (AudioChannels_of vch) as [ach|] eqn:Ech; cbn [mbind res_bind].
  2: { right. exists "channel", vch. split; [done|]. split; [|done].
       unfold legal_value. simpl. by rewrite Ech. }
  left. eexists. split; [done|].
  intros f Hfin. pattern f. revert f Hfin.
  apply fields_cases; eexists; (split; [done|]); unfold legal_value, field_is;
    simpl; rewrite ?Ef, ?Ec, ?Eb, ?Es, ?Ech; split; try done;
    by apply bool_decide_eq_true.
Qed.

(** Every outcome of the parser, with what the header must have been. *)
Lemma parse_outcomes request :
  (header_absent request /\
   _metadata_from_header request = Raise MissingHeader) \/
  exists h,
    headers_getitem (headers request) "X-Speech-Content" = Return h /\
    ((exists entry,
         (entry ∈ str.split ";" h) /\ (entry_key entry ∉ fields) /\
         _metadata_from_header request = Raise (UnknownField (entry_key entry)))
     \/
     (Forall (fun e => entry_key e ∈ fields) (str.split ";" h) /\
      ((exists f,
           (f ∈ fields) /\ last_value f (str.split ";" h) = None /\
           _metadata_from_header request = Raise (MissingField f))
       \/
       (exists f v,
           last_value f (str.split ";" h) = Some v /\
           legal_value f v = false /\
           _metadata_from_header request = Raise (InvalidField f v))
       \/
       (exists m,
           _metadata_from_header request = Return m /\
           forall f, f ∈ fields ->
             exists v, last_value f (str.split ";" h) = Some v /\
                       legal_value f v = true /\ field_is m f v)))).
Proof.
  destruct (decide (header_absent request)) as [Habs|Hpres].
  { left. split; [done|]. unfold _metadata_from_header.
    by rewrite header_data_absent. }
  right.
  destruct (headers_getitem_cases (headers request) "X-Speech-Content")
    as [[h Hh]|Hnone].
  2: { destruct Hpres. unfold header_absent.
       induction (headers request) as [|[k v] l IH]; [by constructor|].
       cbn [headers_getitem] in Hnone.
       change (str.lower "X-Speech-Content") with "x-speech-content" in Hnone.
       destruct (String.eqb_spec (str.lower k) "x-speech-content"); [done|].
       constructor; [done | by apply IH]. }
  exists h. split; [done|]. rewrite (parse_present _ _ Hh).
  destruct (convert_header_data_cases (str.split ";" h) ∅)
    as [[args Hc]|(entry & Hin & Hk & Hc)].
  2: { left. exists entry. by rewrite Hc. }
  right. split; [by eapply convert_header_data_Return|].
  pose proof (convert_header_data_lookup _ _ Hc) as Hl.
  rewrite Hc. cbn [mbind res_bind].
  destruct (check_fields fields args) as [[]|e] eqn:Hchk; cbn [mbind res_bind].
  - apply check_fields_Return in Hchk.
    destruct (metadata_from_args_complete args Hchk)
      as [(m & Hm & Hfs)|(f & v & Hf & Hleg & Hm)].
    + right. right. exists m. split; [done|]. intros f Hf.
      destruct (Hfs f Hf) as (v & Hv & ?). exists v. by rewrite <- Hl.
    + right. left. exists f, v. by rewrite <- Hl.
  - left.
    destruct (check_fields_outcome fields args)
      as [Hok|(pre & f & post & Hfs & _ & Hnone & Hm)]; [congruence|].
    rewrite Hchk in Hm. injection Hm as ->.
    exists f. split; [|split; [by rewrite <- Hl | done]].
    rewrite Hfs. apply elem_of_app. right. apply list_elem_of_here.
Qed.

End ParserProperties.

Section ParserExtras.

Context {E : AudioEnums}.

Lemma last_value_unrecognised k data :
  Forall (fun e => entry_key e ∈ fields) data ->
  k ∉ fields -> last_value k data = None.
Proof.
  intros Hall Hk. destruct (last_value k data) as [v|] eqn:Hv; [|done].
  destruct (last_value_key _ _ _ Hv) as (e & He & <-).
  rewrite Forall_forall in Hall. destruct Hk. by apply Hall.
Qed.

(** X1: when the header uses recognised keys only and lacks one of the six,
    parsing fails with the missing-field error naming the first field, in the
    order language, format, codec, bit_rate, sample_rate, channel, that the
    header lacks, whatever the values of the other fields are. *)
Theorem X1_first_missing_field request h pre f post :
  headers_getitem (headers request) "X-Speech-Content" = Return h ->
  Forall (fun e => entry_key e ∈ fields) (str.split ";" h) ->
  fields = pre ++ f :: post ->
  Forall (fun g => is_Some (last_value g (str.split ";" h))) pre ->
  last_value f (str.split ";" h) = None ->
  _metadata_from_header request = Raise (MissingField f).
Proof.
  intros Hh Hkeys Hfs Hpre Hf. rewrite (parse_present _ _ Hh).
  destruct (convert_header_data_ok _ ∅ Hkeys) as (args & Hc & _).
  pose proof (convert_header_data_lookup _ _ Hc) as Hl.
  rewrite Hc. cbn [mbind res_bind].
  assert (check_fields fields args = Raise (MissingField f)) as ->; [|done].
  rewrite Hfs. apply check_fields_missing; [|by rewrite Hl].
  eapply Forall_impl; [exact Hpre|]. intros g Hg. simpl. by rewrite Hl.
Qed.

(** X2: a returned record reflects the header. Whenever parsing returns a
    record, the header is present, every entry has a recognised key, each of
    the six keys occurs, and each field of the record is the (legal) last
    value the header gives its key: no field is ever defaulted. *)
Theorem X2_returned_record_reflects_header request m :
  _metadata_from_header request = Return m ->
  exists h,
    headers_getitem (headers request) "X-Speech-Content" = Return h /\
    Forall (fun e => entry_key e ∈ fields) (str.split ";" h) /\
    forall f, f ∈ fields ->
      exists v, last_value f (str.split ";" h) = Some v /\
                legal_value f v = true /\ field_is m f v.
Proof.
  intros Hm.
  destruct (parse_outcomes request)
    as [(_ & Hr)|(h & Hh & [(entry & _ & _ & Hr)|(Hkeys & Hcases)])];
    [congruence| |]; [congruence|].
  destruct Hcases as [(f & _ & _ & Hr)|[(f & v & _ & _ & Hr)|(m' & Hr & Hfs)]];
    [congruence|congruence|].
  exists h. split; [done|]. split; [done|].
  assert (m' = m) as -> by congruence. done.
Qed.


(** X4: the order of the entries does not matter. Two headers that use
    recognised keys only and give each of the six keys the same last value
    (or both none) parse to the same result, record or error. *)
Theorem X4_entry_order_irrelevant request1 request2 h1 h2 :
  headers_getitem (headers request1) "X-Speech-Content" = Return h1 ->
  headers_getitem (headers request2) "X-Speech-Content" = Return h2 ->
  Forall (fun e => entry_key e ∈ fields) (str.split ";" h1) ->
  Forall (fun e => entry_key e ∈ fields) (str.split ";" h2) ->
  (forall f, f ∈ fields ->
     last_value f (str.split ";" h1) = last_value f (str.split ";" h2)) ->
  _metadata_from_header request1 = _metadata_from_header request2.
Proof.
  intros Hh1 Hh2 Hk1 Hk2 Hsame.
  rewrite (parse_present _ _ Hh1), (parse_present _ _ Hh2).
  destruct (convert_header_data_ok _ ∅ Hk1) as (args1 & Hc1 & _).
  destruct (convert_header_data_ok _ ∅ Hk2) as (args2 & Hc2 & _).
  pose proof (convert_header_data_lookup _ _ Hc1) as Hl1.
  pose proof (convert_header_data_lookup _ _ Hc2) as Hl2.
  rewrite Hc1, Hc2. cbn [mbind res_bind].
  assert (args1 = args2) as ->; [|done].
  apply map_eq. intros k. rewrite Hl1, Hl2.
  destruct (decide (k ∈ fields)) as [Hin|Hout]; [by apply Hsame|].
  by rewrite !last_value_unrecognised.
Qed.

End ParserExtras.

(** ** Whitespace and the equals sign *)

Lemma lstrip_pad w s : all_space w = true -> str.lstrip (w +:+ s) = str.lstrip s.
Proof.
  induction w as [|c w IH]; [done|]. simpl all_space.
  intros [Hc Hw]%andb_true_iff. rewrite append_cons. simpl.
  rewrite Hc. by apply IH.
Qed.

Lemma lstrip_all_space w : all_space w = true -> str.lstrip w = "".
Proof.
  induction w as [|c w IH]; [done|]. simpl.
  intros [Hc Hw]%andb_true_iff. rewrite Hc. by apply IH.
Qed.

Lemma rstrip_all_space w : all_space w = true -> str.rstrip w = "".
Proof.
  induction w as [|c w IH]; [done|]. simpl.
  intros [Hc Hw]%andb_true_iff. by rewrite (IH Hw), Hc.
Qed.

Lemma rstrip_pad s w : all_space w = true -> str.rstrip (s +:+ w) = str.rstrip s.
Proof.
  intros Hw. induction s as [|c s IH].
  - rewrite append_nil. by apply rstrip_all_space.
  - rewrite append_cons. simpl. by rewrite IH.
Qed.

Lemma strip_pad_right s w :
  all_space w = true -> str.strip (s +:+ w) = str.strip s.
Proof.
  intros Hw. unfold str.strip. induction s as [|c s IH].
  - rewrite append_nil. by rewrite (lstrip_all_space w Hw).
  - rewrite append_cons. simpl. destruct (str.isspace c); [done|].
    change (String c (s +:+ w)) with (String c s +:+ w). by apply rstrip_pad.
Qed.

(** Whitespace around an entry does not change what [strip] gives. *)
Lemma strip_padding entry padded :
  padding_of entry padded -> str.strip padded = str.strip entry.
Proof.
  intros (w1 & w2 & H1 & H2 & ->). unfold str.strip at 1.
  rewrite (lstrip_pad w1 _ H1). by apply strip_pad_right.
Qed.

Lemma convert_header_data_strip data1 data2 args :
  map str.strip data1 = map str.strip data2 ->
  convert_header_data data1 args = convert_header_data data2 args.
Proof.
  revert data2 args.
  induction data1 as [|e1 data1 IH]; intros [|e2 data2] args; try done.
  simpl map. intros [= He Hd]. rewrite !convert_header_data_cons.
  unfold entry_key, entry_value. rewrite He.
  destruct (bool_decide _); [by apply IH | done].
Qed.


Lemma rstrip_nonspace c s :
  str.isspace c = false -> str.rstrip (String c s) = String c (str.rstrip s).
Proof. intros Hc. simpl. rewrite Hc. by destruct (str.rstrip s). Qed.

Lemma rstrip_app_kept a b :
  str.rstrip b <> "" -> str.rstrip (a +:+ b) = a +:+ str.rstrip b.
Proof.
  intros Hb. induction a as [|c a IH]; [done|].
  rewrite !append_cons. simpl. rewrite IH.
  destruct (a +:+ str.rstrip b) eqn:Hab; [|done].
  destruct a; [by rewrite append_nil in Hab | by rewrite append_cons in Hab].
Qed.

Lemma all_space_no_equals w : all_space w = true -> occurs "=" w = false.
Proof.
  induction w as [|c w IH]; [done|]. simpl.
  intros [Hc Hw]%andb_true_iff. rewrite (IH Hw), orb_false_r.
  destruct (Ascii.eqb_spec c "=") as [->|]; [done | done].
Qed.

Lemma has_space_app a b : has_space (a +:+ b) = has_space a || has_space b.
Proof.
  induction a as [|c a IH]; [done|].
  rewrite append_cons. simpl. by rewrite IH, Bool.orb_assoc.
Qed.

Lemma recognised_key_no_space k : k ∈ fields -> has_space k = false.
Proof.
  unfold fields. rewrite !elem_of_cons, elem_of_nil.
  intros [->|[->|[->|[->|[->|[->|[]]]]]]]; reflexivity.
Qed.

Section Tokens.

Context {E : AudioEnums}.

(** X5: whitespace around the entries is ignored. When the entries of one
    header are, one by one, those of another with whitespace added before and
    after, the two headers parse to the same result, record or error. *)
Theorem X5_padding_ignored request1 request2 h1 h2 :
  headers_getitem (headers request1) "X-Speech-Content" = Return h1 ->
  headers_getitem (headers request2) "X-Speech-Content" = Return h2 ->
  Forall2 padding_of (str.split ";" h1) (str.split ";" h2) ->
  _metadata_from_header request1 = _metadata_from_header request2.
Proof.
  intros Hh1 Hh2 Hpad.
  rewrite (parse_present _ _ Hh1), (parse_present _ _ Hh2).
  rewrite (convert_header_data_strip (str.split ";" h1) (str.split ";" h2));
    [done|].
  induction Hpad as [|e1 e2 l1 l2 He _ IH]; [done|].
  simpl. by rewrite IH, (strip_padding _ _ He).
Qed.


(** X7: whitespace between a key and its equals sign is not trimmed. An
    entry that is (after any leading whitespace) a recognised key, then
    whitespace, then the equals sign is read with that whitespace as part of
    the key, so that, when the entries before it have recognised keys,
    parsing fails with the unknown-field error naming the key with its
    whitespace. *)
Theorem X7_space_before_equals_rejected request h pre pad k w v post :
  headers_getitem (headers request) "X-Speech-Content" = Return h ->
  str.split ";" h = pre ++ (pad +:+ k +:+ w +:+ "=" +:+ v) :: post ->
  Forall (fun e => entry_key e ∈ fields) pre ->
  all_space pad = true ->
  k ∈ fields -> w <> "" -> all_space w = true ->
  _metadata_from_header request = Raise (UnknownField (k +:+ w)).
Proof.
  intros Hh Hs Hpre Hpad Hk Hw Hsp.
  assert (entry_key (pad +:+ k +:+ w +:+ "=" +:+ v) = k +:+ w) as Hkey.
  { unfold entry_key, str.strip. rewrite (lstrip_pad pad _ Hpad).
    destruct (recognised_key_shape k Hk) as (_ & Heq & c & k' & -> & Hc).
    assert (str.lstrip (String c k' +:+ w +:+ "=" +:+ v)
            = (String c k' +:+ w) +:+ String "=" v) as ->.
    { rewrite string_app_assoc, append_cons. simpl. by rewrite Hc. }
    rewrite rstrip_app_kept by (by rewrite rstrip_nonspace).
    rewrite rstrip_nonspace by done.
    rewrite partition_app_sep; [done|].
    by rewrite occurs_app, Heq, (all_space_no_equals w Hsp). }
  rewrite <- Hkey. eapply parse_unknown; [done..|].
  rewrite Hkey. intros Hin. apply recognised_key_no_space in Hin.
  rewrite has_space_app in Hin. apply orb_false_elim in Hin as [_ Hin].
  destruct w as [|c w]; [done|]. simpl in Hsp, Hin.
  apply andb_true_iff in Hsp as [Hc _]. by rewrite Hc in Hin.
Qed.

End Tokens.

(** ** Further properties of the endpoint and the listing *)

Section EndpointExtras.

Context {E : AudioEnums}.

Lemma providers_get_None (d : list (string * Provider)) key :
  providers_get d key = None <-> key ∉ d.*1.
Proof.
  induction d as [|[k p] d IH]; simpl.
  - split; [intros _; apply not_elem_of_nil | done].
  - rewrite not_elem_of_cons.
    destruct (String.eqb_spec k key) as [->|Hne].
    + split; [done | by intros [? _]].
    + rewrite IH. split; [by intros ? | by intros [_ ?]]; by split.
Qed.

Lemma providers_get_first (d : list (string * Provider)) i key p :
  NoDup d.*1 -> d !! i = Some (key, p) -> providers_get d key = Some p.
Proof.
  revert i. induction d as [|[k q] d IH]; intros i; simpl; [done|].
  intros [Hk Hnd]%NoDup_cons. destruct i as [|i]; simpl.
  - intros [= -> ->]. by rewrite String.eqb_refl.
  - intros Hi. destruct (String.eqb_spec k key) as [->|Hne]; [|by eapply IH].
    destruct Hk. apply list_elem_of_fmap. exists (key, p).
    split; [done|]. by eapply list_elem_of_lookup_2.
Qed.

(** Every failure of the parser is a ValueError. *)
Lemma parse_failure_ValueError request e :
  _metadata_from_header request = Raise e -> exists text, e = ValueError text.
Proof.
  intros He.
  destruct (parse_outcomes request)
    as [(_ & Hr)|(h & _ & [(entry & _ & _ & Hr)|(_ & Hcases)])].
  - assert (e = MissingHeader) as -> by congruence. by eexists.
  - assert (e = UnknownField (entry_key entry)) as -> by congruence.
    by eexists.
  - destruct Hcases as [(f & _ & _ & Hr)|[(f & v & _ & _ & Hr)|(m & Hr & _)]];
      [| |congruence].
    + assert (e = MissingField f) as -> by congruence. by eexists.
    + assert (e = InvalidField f v) as -> by congruence. by eexists.
Qed.

(** X8: for a registered provider, every failure of the header parse is
    answered with HTTPBadRequest (status 400) carrying the parser's message;
    no provider method is called and the request body stays unread. *)
Theorem X8_parse_failure_is_bad_request self request provider stt_provider e w :
  providers_get (providers self) provider = Some stt_provider ->
  _metadata_from_header request = Raise e ->
  exists text,
    e = ValueError text /\
    post self request provider w = (Raise (HTTPBadRequest text), w) /\
    status_code (HTTPBadRequest text) = Some 400%Z.
Proof.
  intros Hp He. destruct (parse_failure_ValueError _ _ He) as [text ->].
  exists text. split; [done|]. split; [by eapply post_bad_request | done].
Qed.

(** X9: the served path. For a registered provider whose [check_metadata]
    accepts the parsed metadata, the handler calls [check_metadata] and then
    the stream method, once each and in this order, hands the stream method
    the parsed metadata and the whole unread body, leaves unread what the
    provider left, and answers with the provider's result as it is; an
    exception of the provider propagates unchanged. *)
Theorem X9_served_request self request provider stt_provider metadata w r unread :
  providers_get (providers self) provider = Some stt_provider ->
  _metadata_from_header request = Return metadata ->
  check_metadata stt_provider metadata = true ->
  async_process_audio_stream stt_provider metadata (content w) = (r, unread) ->
  post self request provider w =
  (match r with
   | Return result => Return (json result)
   | Raise err => Raise err
   end,
   {| content := unread;
      invocations :=
        invocations w ++
        [Called_check_metadata provider metadata;
         Called_async_process_audio_stream provider metadata] |}).
Proof.
  intros Hp Hm Hc Hr. unfold post. rewrite Hp, Hm.
  cbv [mbind handler_bind mret handler_ret call_check_metadata
       call_async_process_audio_stream raise].
  rewrite Hc. cbn [negb content invocations]. rewrite Hr.
  rewrite <- app_assoc. by destruct r.
Qed.

(** X10: the body is read only on the served path. If, after the handler,
    the unread body differs or a call of the stream method has been recorded,
    then the provider is registered, the header parsed, and the provider's
    [check_metadata] accepted the metadata. *)
Theorem X10_body_read_only_when_served self request provider w r w' :
  post self request provider w = (r, w') ->
  content w' <> content w \/
  stream_calls (invocations w') <> stream_calls (invocations w) ->
  exists stt_provider metadata,
    providers_get (providers self) provider = Some stt_provider /\
    _metadata_from_header request = Return metadata /\
    check_metadata stt_provider metadata = true.
Proof.
  unfold post. intros Hpost Hchanged.
  destruct (providers_get (providers self) provider) as [p|] eqn:Hp.
  2: { injection Hpost as _ <-. by destruct Hchanged. }
  destruct (_metadata_from_header request) as [m|e] eqn:Hm.
  2: { exfalso. destruct e; injection Hpost as _ <-; by destruct Hchanged. }
  destruct (check_metadata p m) eqn:Hc; [by exists p, m|]. exfalso.
  revert Hpost.
  cbv [mbind handler_bind mret handler_ret call_check_metadata raise].
  rewrite Hc. cbn [negb]. intros [= _ <-]. cbn [content invocations] in Hchanged.
  destruct Hchanged as [?|Hs]; [done|]. apply Hs.
  unfold stream_calls. rewrite List.filter_app. cbn. by rewrite app_nil_r.
Qed.

End EndpointExtras.

Section ListingExtras.

Context {E : AudioEnums} {MatchResult : Type}.
Variable matches : string -> list string -> MatchResult.
Variable truth : MatchResult -> bool.

(** X11: the listing and the endpoint agree. The view that [async_setup]
    registers serves the registry the listing command reads, so an engine id
    is in the command's reply exactly when the capability query for that name
    returns a payload, and is absent exactly when the query raises
    HTTPNotFound. *)
Theorem X11_listed_engines_are_served hass connection msg connection' request w :
  websocket_list_engines matches truth hass connection msg
    = Return connection' ->
  exists reply,
    connection' = connection ++ [reply] /\
    forall engine,
      (engine ∈ map engine_id (result_providers reply) <->
       exists payload,
         get (async_setup_view hass) request engine w = (Return payload, w)) /\
      (engine ∉ map engine_id (result_providers reply) <->
       get (async_setup_view hass) request engine w = (Raise HTTPNotFound, w)).
Proof.
  unfold websocket_list_engines, msg_getitem_language, send_message.
  destruct (msg_language msg) as [language|]; [|done].
  cbn [mbind res_bind]. intros [= <-]. eexists. split; [done|].
  cbn [result_providers]. intros engine.
  assert (map engine_id
            (map (fun '(engine_id, provider) =>
                    {| engine_id := engine_id;
                       language_supported :=
                         truth (matches language
                                  (supported_languages provider)) |})
               (data_DOMAIN hass))
          = (data_DOMAIN hass).*1) as ->.
  { induction (data_DOMAIN hass) as [|[k p] l IH]; [done|]. cbn. by rewrite IH. }
  unfold get, async_setup_view. cbn [providers].
  destruct (providers_get (data_DOMAIN hass) engine) as [p|] eqn:Hp.
  - assert (engine ∈ (data_DOMAIN hass).*1) as Hin.
    { destruct (decide (engine ∈ (data_DOMAIN hass).*1)) as [?|Hout]; [done|].
      apply providers_get_None in Hout. congruence. }
    split; split; try done. by eexists.
  - pose proof (proj1 (providers_get_None _ _) Hp) as Hout.
    split; split; try done. by intros [? [=]].
Qed.

(** X12: with distinct engine ids in the registry, the entry the listing
    gives an engine and the payload the capability query returns for it come
    from the same provider: the one registered at that position. *)
Theorem X12_listing_and_query_same_provider hass connection id language request
    w i engine provider :
  NoDup (data_DOMAIN hass).*1 ->
  data_DOMAIN hass !! i = Some (engine, provider) ->
  exists reply,
    websocket_list_engines matches truth hass connection
      {| msg_id := id; msg_language := Some language |}
    = Return (connection ++ [reply]) /\
    result_providers reply !! i =
    Some {| engine_id := engine;
            language_supported :=
              truth (matches language (supported_languages provider)) |} /\
    get (async_setup_view hass) request engine w =
    (Return {| languages := supported_languages provider;
               formats := supported_formats provider;
               codecs := supported_codecs provider;
               sample_rates := supported_sample_rates provider;
               bit_rates := supported_bit_rates provider;
               channels := supported_channels provider |}, w).
Proof.
  intros Hnd Hi. eexists. split; [reflexivity|]. cbn [result_providers]. split.
  - change (map ?f ?l) with (f <$> l). by rewrite list_lookup_fmap, Hi.
  - unfold get, async_setup_view. cbn [providers].
    by rewrite (providers_get_first _ _ _ _ Hnd Hi).
Qed.

End ListingExtras.

(** ** The further properties at concrete inputs *)

Lemma X1_witness :
  _metadata_from_header (E := Listed.enums)
    (Listed.request_with "language=de_de; format=wav")
  = Raise (MissingField "codec").
Proof.
  apply (X1_first_missing_field (E := Listed.enums)
           (Listed.request_with "language=de_de; format=wav")
           "language=de_de; format=wav" ["language"; "format"] "codec"
           ["bit_rate"; "sample_rate"; "channel"]).
  - reflexivity.
  - by_evaluation.
  - reflexivity.
  - repeat (constructor; [by eexists|]). constructor.
  - reflexivity.
Defined.

Lemma X2_witness :
  exists h,
    headers_getitem (headers (Listed.request_with Listed.docstring_header))
      "X-Speech-Content" = Return h /\
    Forall (fun e => entry_key e ∈ fields) (str.split ";" h) /\
    forall f, f ∈ fields ->
      exists v, last_value f (str.split ";" h) = Some v /\
                legal_value (E := Listed.enums) f v = true /\
                field_is Listed.docstring_metadata f v.
Proof.
  apply (X2_returned_record_reflects_header (E := Listed.enums)
           (Listed.request_with Listed.docstring_header)
           Listed.docstring_metadata).
  vm_compute. reflexivity.
Defined.


Lemma X4_witness :
  _metadata_from_header (E := Listed.enums)
    (Listed.request_with Listed.docstring_header)
  = _metadata_from_header (E := Listed.enums)
      (Listed.request_with
         "language=de_de; channel=1; bit_rate=16; sample_rate=16000; codec=pcm; format=wav").
Proof.
  apply (X4_entry_order_irrelevant (E := Listed.enums)
           (Listed.request_with Listed.docstring_header)
           (Listed.request_with
              "language=de_de; channel=1; bit_rate=16; sample_rate=16000; codec=pcm; format=wav")
           Listed.docstring_header
           "language=de_de; channel=1; bit_rate=16; sample_rate=16000; codec=pcm; format=wav").
  - reflexivity.
  - reflexivity.
  - by_evaluation.
  - by_evaluation.
  - intros f Hf. pattern f. revert f Hf. apply fields_cases; reflexivity.
Defined.

Lemma X5_witness :
  _metadata_from_header (E := Listed.enums)
    (Listed.request_with "language=de_de;format=wav")
  = _metadata_from_header (E := Listed.enums)
      (Listed.request_with "  language=de_de ; format=wav").
Proof.
  apply (X5_padding_ignored (E := Listed.enums)
           (Listed.request_with "language=de_de;format=wav")
           (Listed.request_with "  language=de_de ; format=wav")
           "language=de_de;format=wav" "  language=de_de ; format=wav").
  - reflexivity.
  - reflexivity.
  - constructor; [by exists "  ", " "|].
    constructor; [by exists " ", ""|]. constructor.
Defined.

Lemma X7_witness :
  _metadata_from_header (E := Listed.enums)
    (Listed.request_with "language=de_de; format =wav")
  = Raise (UnknownField "format ").
Proof.
  apply (X7_space_before_equals_rejected (E := Listed.enums)
           (Listed.request_with "language=de_de; format =wav")
           "language=de_de; format =wav" ["language=de_de"] " " "format" " "
           "wav" []).
  - reflexivity.
  - reflexivity.
  - by_evaluation.
  - reflexivity.
  - by_evaluation.
  - done.
  - reflexivity.
Defined.

Lemma X8_witness :
  exists text,
    UnknownField "foo" = ValueError text /\
    post Listed.mock_view (Listed.request_with "foo=bar") "mock"
      Listed.fresh_world
    = (Raise (HTTPBadRequest text), Listed.fresh_world) /\
    status_code (HTTPBadRequest text) = Some 400%Z.
Proof.
  apply (X8_parse_failure_is_bad_request (E := Listed.enums) Listed.mock_view
           (Listed.request_with "foo=bar") "mock" Listed.mock_provider
           (UnknownField "foo") Listed.fresh_world).
  - reflexivity.
  - vm_compute. reflexivity.
Defined.

Lemma X9_witness :
  post Listed.mock_view (Listed.request_with Listed.docstring_header) "mock"
    Listed.fresh_world
  = (Return (json {| text := "test"; result := SUCCESS |}),
     {| content := [];
        invocations :=
          invocations Listed.fresh_world ++
          [Called_check_metadata "mock" Listed.docstring_metadata;
           Called_async_process_audio_stream "mock" Listed.docstring_metadata]
     |}).
Proof.
  apply (X9_served_request (E := Listed.enums) Listed.mock_view
           (Listed.request_with Listed.docstring_header) "mock"
           Listed.mock_provider Listed.docstring_metadata Listed.fresh_world
           (Return {| text := "test"; result := SUCCESS |}) []).
  - reflexivity.
  - vm_compute. reflexivity.
  - vm_compute. reflexivity.
  - reflexivity.
Defined.

Lemma X10_witness :
  exists stt_provider metadata,
    providers_get (providers Listed.mock_view) "mock" = Some stt_provider /\
    _metadata_from_header (Listed.request_with Listed.docstring_header)
    = Return metadata /\
    check_metadata stt_provider metadata = true.
Proof.
  apply (X10_body_read_only_when_served (E := Listed.enums) Listed.mock_view
           (Listed.request_with Listed.docstring_header) "mock"
           Listed.fresh_world
           (Return (json {| text := "test"; result := SUCCESS |}))
           {| content := [];
              invocations :=
                [Called_check_metadata "mock" Listed.docstring_metadata;
                 Called_async_process_audio_stream "mock"
                   Listed.docstring_metadata] |}).
  - vm_compute. reflexivity.
  - left. vm_compute. intros [=].
Defined.

Lemma X11_witness :
  let hass := {| data_DOMAIN := [("mock", Listed.mock_provider)] |} in
  let matches := fun (language : string) (supported : list string) =>
                   bool_decide (language ∈ supported) in
  exists reply,
    [ {| iden := 7%Z;
         result_providers :=
           [ {| engine_id := "mock"; language_supported := true |} ] |} ]
    = [] ++ [reply] /\
    forall engine,
      (engine ∈ map engine_id (result_providers reply) <->
       exists payload,
         get (async_setup_view hass) (Listed.request_with "") engine
           Listed.fresh_world
         = (Return payload, Listed.fresh_world)) /\
      (engine ∉ map engine_id (result_providers reply) <->
       get (async_setup_view hass) (Listed.request_with "") engine
         Listed.fresh_world
       = (Raise HTTPNotFound, Listed.fresh_world)).
Proof.
  intros hass matches.
  apply (X11_listed_engines_are_served (E := Listed.enums) matches id hass []
           {| msg_id := 7%Z; msg_language := Some "en_us" |}).
  vm_compute. reflexivity.
Defined.

Lemma X12_witness :
  let hass := {| data_DOMAIN := [("mock", Listed.mock_provider)] |} in
  let matches := fun (language : string) (supported : list string) =>
                   bool_decide (language ∈ supported) in
  exists reply,
    websocket_list_engines matches id hass []
      {| msg_id := 7%Z; msg_language := Some "de_de" |}
    = Return ([] ++ [reply]) /\
    result_providers reply !! 0%nat =
    Some {| engine_id := "mock";
            language_supported :=
              id (matches "de_de" (supported_languages Listed.mock_provider)) |} /\
    get (async_setup_view hass) (Listed.request_with "") "mock"
      Listed.fresh_world =
    (Return {| languages := supported_languages Listed.mock_provider;
               formats := supported_formats Listed.mock_provider;
               codecs := supported_codecs Listed.mock_provider;
               sample_rates := supported_sample_rates Listed.mock_provider;
               bit_rates := supported_bit_rates Listed.mock_provider;
               channels := supported_channels Listed.mock_provider |},
     Listed.fresh_world).
Proof.
  intros hass matches.
  apply (X12_listing_and_query_same_provider (E := Listed.enums) matches id
           hass [] 7%Z "de_de" (Listed.request_with "") Listed.fresh_world
           0%nat "mock" Listed.mock_provider).
  - by_evaluation.
  - reflexivity.
Defined.
